(** * Hapto: timeline interaction and waveform synthesis

    A shallow embedding of the cue model ([lib/types.ts]), the waveform
    generator ([lib/waveform-generator.ts]), the timeline view and its drag
    handlers ([components/timeline.tsx]), and the editor session
    ([components/hapto-editor.tsx], [components/adjustments-panel.tsx]).

    Numbers.  A TypeScript [number] is modelled as a real number: the
    arithmetic below is the exact arithmetic the code approximates in
    binary64.  NaN, the infinities and rounding are outside the model, and so
    is division by zero (which the sources guard by tests such as
    [visibleDuration === 0], kept here).  Array indices, sample counts and
    track numbers, which the code only ever holds as integers, are [nat] or
    [Z].

    State.  React state cells are explicit fields of a state record, and each
    handler is a function from the state before to the state after. *)

From Stdlib Require Import Reals Lra Lia ZArith List.
From stdpp Require Import base decidable option list gmap strings.

Open Scope R_scope.

(** ** Numbers *)

#[global] Instance R_eq_dec : EqDecision R := Req_dec_T.
#[global] Instance Rle_decision : RelDecision Rle := Rle_dec.
#[global] Instance Rlt_decision : RelDecision Rlt := Rlt_dec.
#[global] Instance Rge_decision : RelDecision Rge := Rge_dec.
#[global] Instance Rgt_decision : RelDecision Rgt := Rgt_dec.

(** The built-ins of [Math] that the sources call. *)
Module Math.

Definition max (a b : R) : R := Rmax a b.
Definition min (a b : R) : R := Rmin a b.
Definition abs (a : R) : R := Rabs a.
Definition sqrt (a : R) : R := R_sqrt.sqrt a.
Definition sin (a : R) : R := Rtrigo_def.sin a.
Definition exp (a : R) : R := Rtrigo_def.exp a.
Definition PI : R := Rtrigo1.PI.

(** [Math.floor], integer valued. *)
Definition floor (a : R) : Z := Int_part a.

(** [Math.pow] on its real domain: a base [0] gives [1] at exponent [0] and
    [0] at a positive exponent; a positive base is [exp (y * ln x)]. *)
Definition pow (x y : R) : R :=
  if decide (x = 0) then (if decide (y = 0) then 1 else 0) else Rpower x y.

(** [Math.random()]: the generator is an oracle, the [k]-th draw of a run
    being [rnd k], a number of [[0, 1)]. *)
Definition random_source : Type := nat -> R.

End Math.

(** The remainder operator [a % 1] of JavaScript: the result has the sign of
    the dividend, [a] minus its truncation towards zero. *)
Definition trunc (a : R) : Z :=
  if decide (0 <= a) then Int_part a else (- Int_part (- a))%Z.

Definition rem1 (a : R) : R := a - IZR (trunc a).

(** ** Cue model ([lib/types.ts]) *)

Inductive CueType : Set :=
  | rumble_low | rumble_high
  | kick_soft | kick_hard
  | heartbeat_slow | heartbeat_fast
  | pulse | explosion
  | ramp_up | ramp_down.

#[global] Instance CueType_eq_dec : EqDecision CueType.
Proof. solve_decision. Defined.

Record StaticCueProperties : Type := mkStaticProps {
  intensity : R;
  sharpness : R
}.

Record RampCueProperties : Type := mkRampProps {
  intensity_start : R;
  intensity_end : R;
  sharpness_start : R;
  sharpness_end : R
}.

(** [BaseCue] without its [type] field, which the two extensions refine. *)
Record BaseCue : Type := mkBase {
  base_id : string;
  base_startTime : R;
  base_duration : R;
  base_track : Z
}.

(** [Exclude<CueType, 'ramp_up' | 'ramp_down'>] *)
Inductive StaticCueType : Set :=
  | st_rumble_low | st_rumble_high
  | st_kick_soft | st_kick_hard
  | st_heartbeat_slow | st_heartbeat_fast
  | st_pulse | st_explosion.

(** ['ramp_up' | 'ramp_down'] *)
Inductive RampCueType : Set := rt_ramp_up | rt_ramp_down.

Definition static_type (t : StaticCueType) : CueType :=
  match t with
  | st_rumble_low => rumble_low
  | st_rumble_high => rumble_high
  | st_kick_soft => kick_soft
  | st_kick_hard => kick_hard
  | st_heartbeat_slow => heartbeat_slow
  | st_heartbeat_fast => heartbeat_fast
  | st_pulse => pulse
  | st_explosion => explosion
  end.

Definition ramp_type (t : RampCueType) : CueType :=
  match t with
  | rt_ramp_up => ramp_up
  | rt_ramp_down => ramp_down
  end.

(** [HapticCue = StaticHapticCue | RampHapticCue], a closed tagged union. *)
Inductive HapticCue : Type :=
  | StaticHapticCue (b : BaseCue) (t : StaticCueType) (p : StaticCueProperties)
  | RampHapticCue (b : BaseCue) (t : RampCueType) (p : RampCueProperties).

Definition base (cue : HapticCue) : BaseCue :=
  match cue with
  | StaticHapticCue b _ _ => b
  | RampHapticCue b _ _ => b
  end.

Definition id (cue : HapticCue) : string := base_id (base cue).
Definition startTime (cue : HapticCue) : R := base_startTime (base cue).
Definition duration (cue : HapticCue) : R := base_duration (base cue).
Definition track (cue : HapticCue) : Z := base_track (base cue).

Definition type (cue : HapticCue) : CueType :=
  match cue with
  | StaticHapticCue _ t _ => static_type t
  | RampHapticCue _ t _ => ramp_type t
  end.

Definition isRampCue (cue : HapticCue) : bool :=
  bool_decide (type cue = ramp_up) || bool_decide (type cue = ramp_down).

Definition isStaticCue (cue : HapticCue) : bool := negb (isRampCue cue).

(** ** View and coordinate model ([components/timeline.tsx]) *)

(** The props and state cells the coordinate functions close over.
    [timelineWidth] is [timelineRef.current?.offsetWidth], [None] while the
    ref is not attached. *)
Record TimelineView : Type := mkView {
  totalDuration : R;
  zoomLevel : R;
  viewStartTime : R;
  timelineWidth : option R
}.

Definition visibleDuration (v : TimelineView) : R :=
  totalDuration v / zoomLevel v.

Definition timeToPixel (v : TimelineView) (time : R) : R :=
  match timelineWidth v with
  | None => 0
  | Some offsetWidth =>
      if decide (visibleDuration v = 0) then 0
      else
        let relativeTime := time - viewStartTime v in
        (relativeTime / visibleDuration v) * offsetWidth
  end.

Definition pixelToTime (v : TimelineView) (pixel : R) : R :=
  match timelineWidth v with
  | None => 0
  | Some offsetWidth =>
      if decide (visibleDuration v = 0) then 0
      else
        let relativeTime := (pixel / offsetWidth) * visibleDuration v in
        viewStartTime v + relativeTime
  end.

(** ** Waveform synthesis ([lib/waveform-generator.ts]) *)

Record WaveformPoint : Type := mkPoint {
  x : R;
  y : R
}.

(** [viewBox] is the template string [`0 0 ${width} ${height}`]; it is kept
    as the four numbers the template prints. *)
Record WaveformData : Type := mkWaveform {
  points : list WaveformPoint;
  viewBox : R * R * R * R;
  color : string
}.

Definition getWaveformColor (cueType : CueType) : string :=
  match cueType with
  | rumble_low => "#E0E7FF"
  | rumble_high => "#F3E8FF"
  | kick_soft => "#F0F9FF"
  | kick_hard => "#ECFEFF"
  | heartbeat_slow => "#FFFBEB"
  | heartbeat_fast => "#FFF7ED"
  | pulse => "#F0FDF4"
  | explosion => "#FEF2F2"
  | ramp_up => "#F8FAFC"
  | ramp_down => "#F8FAFC"
  end.

Definition applySharpnessFilter (value sharpness : R) : R :=
  let sharpnessClamp := Math.max 0 (Math.min 1 sharpness) in
  if decide (value >= 0) then Math.pow value (1 - sharpnessClamp * 0.7)
  else - Math.pow (- value) (1 - sharpnessClamp * 0.7).

(** [isStaticCue(cue) ? cue.intensity : (cue.intensity_start + cue.intensity_end) / 2],
    the guard being decided by the variant of the union. *)
Definition scalarIntensity (cue : HapticCue) : R :=
  match cue with
  | StaticHapticCue _ _ p => intensity p
  | RampHapticCue _ _ p => (intensity_start p + intensity_end p) / 2
  end.

Definition scalarSharpness (cue : HapticCue) : R :=
  match cue with
  | StaticHapticCue _ _ p => sharpness p
  | RampHapticCue _ _ p => (sharpness_start p + sharpness_end p) / 2
  end.

(** [i / (sampleCount - 1)], the progress of sample [i]. *)
Definition progress (sampleCount : Z) (i : nat) : R :=
  INR i / (IZR sampleCount - 1).

(** [for (let i = 0; i < sampleCount; i++) points.push(body i)], for the
    integer sample counts the dispatcher passes. *)
Definition sampleLoop (sampleCount : Z) (body : nat -> WaveformPoint)
  : list WaveformPoint :=
  List.map body (seq 0 (Z.to_nat sampleCount)).

Section Generators.

Variable cue : HapticCue.
Variables width height : R.
Variable sampleCount : Z.
Variable color : string.

Let centerY : R := height / 2.

Definition result (pts : list WaveformPoint) : WaveformData :=
  mkWaveform pts (0, 0, width, height) color.

(** *** Rumble *)

Definition rumblePoint (rnd : Math.random_source) (baseFrequency : R)
  (i : nat) : WaveformPoint :=
  let intensity := scalarIntensity cue in
  let sharpness := scalarSharpness cue in
  let maxAmplitude := height * 0.4 in
  let amplitude := intensity * maxAmplitude in
  let cycleCount :=
    Math.max 1 (IZR (Math.floor (duration cue * baseFrequency))) in
  let x := progress sampleCount i * width in
  let t := progress sampleCount i * cycleCount * 2 * Math.PI in
  let rawValue := Math.sin t in
  let harmonicIntensity := sharpness * 0.3 in
  let rawValue := rawValue + Math.sin (t * 2) * harmonicIntensity * 0.5 in
  let rawValue := rawValue + Math.sin (t * 3) * harmonicIntensity * 0.25 in
  let shapedValue := applySharpnessFilter rawValue sharpness in
  let randomVariation := (rnd i - 0.5) * 0.05 * intensity in
  let y := centerY - (shapedValue * amplitude + randomVariation * amplitude) in
  mkPoint x y.

Definition generateAccurateRumbleWave (rnd : Math.random_source)
  (baseFrequency : R) : WaveformData :=
  result (sampleLoop sampleCount (rumblePoint rnd baseFrequency)).

(** *** Kick *)

Inductive ImpactType : Set := soft | hard.

Definition impactPoint (type : ImpactType) (i : nat) : WaveformPoint :=
  let intensity := scalarIntensity cue in
  let sharpness := scalarSharpness cue in
  let maxAmplitude := height * 0.45 in
  let amplitude := intensity * maxAmplitude in
  let peakPosition := match type with hard => 0.15 | soft => 0.25 end in
  let peakWidth := match type with hard => 0.08 | soft => 0.15 end in
  let decayRate := match type with hard => 12 | soft => 6 end in
  let x := progress sampleCount i * width in
  let t := progress sampleCount i in
  let y :=
    if decide (t <= peakPosition + peakWidth) then
      let distFromPeak := Math.abs (t - peakPosition) in
      if decide (distFromPeak <= peakWidth) then
        let peakFactor := 1 - (distFromPeak / peakWidth) in
        let spikeValue := Math.sin (peakFactor * Math.PI * 0.5) in
        let spikeValue := applySharpnessFilter spikeValue sharpness in
        let spikeHeight := spikeValue * amplitude in
        centerY - spikeHeight
      else centerY
    else
      let decayTime := t - (peakPosition + peakWidth) in
      let decayFactor := Math.exp (- decayTime * decayRate) in
      let vibrationFreq := 20 * (1 + sharpness) in
      let vibration :=
        Math.sin (decayTime * vibrationFreq * 2 * Math.PI) * 0.1 in
      let decayHeight := amplitude * 0.2 * decayFactor * (1 + vibration) in
      centerY - decayHeight in
  mkPoint x y.

Definition generateAccurateImpactWave (type : ImpactType) : WaveformData :=
  result (sampleLoop sampleCount (impactPoint type)).

(** *** Heartbeat *)

Definition heartbeatPoint (beatInterval : R) (i : nat) : WaveformPoint :=
  let intensity := scalarIntensity cue in
  let sharpness := scalarSharpness cue in
  let maxAmplitude := height * 0.4 in
  let amplitude := intensity * maxAmplitude in
  let totalBeats := duration cue / beatInterval in
  let x := progress sampleCount i * width in
  let t := progress sampleCount i * totalBeats in
  let beatPhase := rem1 t in
  let y :=
    if decide (beatPhase < 0.12) then
      let s1Phase := beatPhase / 0.12 in
      let s1Value := Math.sin (s1Phase * Math.PI) in
      let s1Value := applySharpnessFilter s1Value sharpness in
      centerY - s1Value * amplitude * 0.8
    else if decide (beatPhase > 0.18 /\ beatPhase < 0.28) then
      let s2Phase := (beatPhase - 0.18) / 0.10 in
      let s2Value := Math.sin (s2Phase * Math.PI) in
      let s2Value := applySharpnessFilter s2Value sharpness in
      centerY - s2Value * amplitude * 0.5
    else if decide (beatPhase > 0.28 /\ beatPhase < 0.35) then
      let afterPhase := (beatPhase - 0.28) / 0.07 in
      let afterValue := Math.sin (afterPhase * Math.PI) * 0.15 in
      centerY - afterValue * amplitude
    else centerY in
  mkPoint x y.

Definition generateAccurateHeartbeatWave (beatInterval : R) : WaveformData :=
  result (sampleLoop sampleCount (heartbeatPoint beatInterval)).

(** *** Pulse *)

Definition pulsesPerSecond : R := 3 + scalarSharpness cue * 4.
Definition totalPulses : R := duration cue * pulsesPerSecond.
Definition dutyCycle : R := 0.3 + scalarSharpness cue * 0.3.

(** [pulsePhase] of sample [i]. *)
Definition pulsePhase (i : nat) : R :=
  rem1 (progress sampleCount i * totalPulses).

Definition pulsePoint (i : nat) : WaveformPoint :=
  let intensity := scalarIntensity cue in
  let sharpness := scalarSharpness cue in
  let maxAmplitude := height * 0.4 in
  let amplitude := intensity * maxAmplitude in
  let x := progress sampleCount i * width in
  let pulsePhase := pulsePhase i in
  let y :=
    if decide (pulsePhase < dutyCycle) then
      let edgeSmoothing := (1 - sharpness) * 0.1 in
      let pulseValue :=
        if decide (pulsePhase < edgeSmoothing) then
          pulsePhase / edgeSmoothing
        else if decide (pulsePhase > dutyCycle - edgeSmoothing) then
          (dutyCycle - pulsePhase) / edgeSmoothing
        else 1 in
      centerY - pulseValue * amplitude
    else
      centerY - amplitude * 0.05 in
  mkPoint x y.

Definition generateAccuratePulseWave : WaveformData :=
  result (sampleLoop sampleCount pulsePoint).

(** *** Explosion *)

Definition explosionPoint (i : nat) : WaveformPoint :=
  let intensity := scalarIntensity cue in
  let sharpness := scalarSharpness cue in
  let maxAmplitude := height * 0.45 in
  let amplitude := intensity * maxAmplitude in
  let blastDuration := 0.08 + (1 - sharpness) * 0.05 in
  let decayRate := 4 + sharpness * 8 in
  let aftershockFreq := 15 + sharpness * 20 in
  let x := progress sampleCount i * width in
  let t := progress sampleCount i in
  let y :=
    if decide (t < blastDuration) then
      let blastPhase := t / blastDuration in
      let blastValue := Math.pow (1 - blastPhase) 0.3 in
      let blastValue := applySharpnessFilter blastValue sharpness in
      centerY - blastValue * amplitude
    else
      let decayTime := t - blastDuration in
      let primaryDecay := Math.exp (- decayTime * decayRate) in
      let aftershockPhase := decayTime * aftershockFreq * 2 * Math.PI in
      let aftershock :=
        Math.sin aftershockPhase * Math.exp (- decayTime * 3) * 0.3 in
      let totalDecay := primaryDecay * (1 + aftershock) in
      centerY - totalDecay * amplitude * 0.4 in
  mkPoint x y.

Definition generateAccurateExplosionWave : WaveformData :=
  result (sampleLoop sampleCount explosionPoint).

(** *** Ramp *)

(** The curve-shaping block of the ramp loop: the value [rampValue] holds
    after the [if (currentSharpness > 0.5) ... else ...]. *)
Definition rampCurve (t currentSharpness : R) : R :=
  if decide (currentSharpness > 0.5) then
    let sharpnessFactor := (currentSharpness - 0.5) * 2 in
    Math.pow t (1 - sharpnessFactor * 0.5)
  else
    let smoothnessFactor := (0.5 - currentSharpness) * 2 in
    1 - Math.pow (1 - t) (1 + smoothnessFactor * 0.5).

Definition currentIntensity (p : RampCueProperties) (t : R) : R :=
  intensity_start p + (intensity_end p - intensity_start p) * t.

Definition currentSharpness (p : RampCueProperties) (t : R) : R :=
  sharpness_start p + (sharpness_end p - sharpness_start p) * t.

(** The value of [rampValue] when it is scaled into [y]: the shaped curve,
    inverted for a [ramp_down] cue. *)
Definition rampValue (ty : RampCueType) (p : RampCueProperties) (t : R) : R :=
  let rampValue := rampCurve t (currentSharpness p t) in
  match ty with
  | rt_ramp_down => 1 - rampValue
  | rt_ramp_up => rampValue
  end.

Definition rampPoint (ty : RampCueType) (p : RampCueProperties) (i : nat)
  : WaveformPoint :=
  let maxAmplitude := height * 0.45 in
  let x := progress sampleCount i * width in
  let t := progress sampleCount i in
  let currentIntensity := currentIntensity p t in
  let currentSharpness := currentSharpness p t in
  let amplitude := currentIntensity * maxAmplitude in
  let microFreq := 25 + currentSharpness * 15 in
  let microVariation :=
    Math.sin (t * microFreq * 2 * Math.PI) * 0.02 * currentIntensity in
  let rampValue := rampValue ty p t in
  let y := centerY - (rampValue * amplitude + microVariation * amplitude) in
  mkPoint x y.

(** The flat fallback for a cue that is not a ramp cue. *)
Definition flatPoint (p : StaticCueProperties) (i : nat) : WaveformPoint :=
  let intensity := intensity p in
  let amplitude := intensity * height * 0.4 in
  let x := progress sampleCount i * width in
  mkPoint x (centerY - amplitude * 0.5).

Definition generateAccurateRampWave : WaveformData :=
  match cue with
  | StaticHapticCue _ _ p => result (sampleLoop sampleCount (flatPoint p))
  | RampHapticCue _ ty p => result (sampleLoop sampleCount (rampPoint ty p))
  end.

End Generators.

Definition baseSampleRate : R := 60.

Definition sampleCountOf (duration zoomLevel : R) : Z :=
  Z.max 32
    (Z.min 512 (Math.floor (duration * baseSampleRate * Math.sqrt zoomLevel))).

(** The [default] branch of the [switch] is not reachable: [CueType] is
    closed and every variant has its [case]. *)
Definition generateWaveformData (rnd : Math.random_source) (cue : HapticCue)
  (width height zoomLevel : R) : WaveformData :=
  let duration := duration cue in
  let color := getWaveformColor (type cue) in
  let sampleCount := sampleCountOf duration zoomLevel in
  match type cue with
  | rumble_low =>
      generateAccurateRumbleWave cue width height sampleCount color rnd 2.0
  | rumble_high =>
      generateAccurateRumbleWave cue width height sampleCount color rnd 8.0
  | kick_soft =>
      generateAccurateImpactWave cue width height sampleCount color soft
  | kick_hard =>
      generateAccurateImpactWave cue width height sampleCount color hard
  | heartbeat_slow =>
      generateAccurateHeartbeatWave cue width height sampleCount color 1.2
  | heartbeat_fast =>
      generateAccurateHeartbeatWave cue width height sampleCount color 0.6
  | pulse => generateAccuratePulseWave cue width height sampleCount color
  | explosion => generateAccurateExplosionWave cue width height sampleCount color
  | ramp_up | ramp_down =>
      generateAccurateRampWave cue width height sampleCount color
  end.

(** ** Cue patches ([Partial<HapticCue>]) *)

(** The keys a caller of [onCueUpdate] / [onUpdate] sets; an absent key is
    [None].  No caller patches [id], [type] or [track]. *)
Record CueUpdates : Type := mkUpdates {
  u_startTime : option R;
  u_duration : option R;
  u_intensity : option R;
  u_sharpness : option R;
  u_intensity_start : option R;
  u_intensity_end : option R;
  u_sharpness_start : option R;
  u_sharpness_end : option R
}.

(** [let updates: Partial<HapticCue> = {}] *)
Definition noUpdates : CueUpdates :=
  mkUpdates None None None None None None None None.

Definition set_startTime (v : R) (u : CueUpdates) : CueUpdates :=
  mkUpdates (Some v) (u_duration u) (u_intensity u) (u_sharpness u)
    (u_intensity_start u) (u_intensity_end u)
    (u_sharpness_start u) (u_sharpness_end u).

Definition set_duration (v : R) (u : CueUpdates) : CueUpdates :=
  mkUpdates (u_startTime u) (Some v) (u_intensity u) (u_sharpness u)
    (u_intensity_start u) (u_intensity_end u)
    (u_sharpness_start u) (u_sharpness_end u).

(** [Object.keys(updates).length > 0] *)
Definition hasKeys (u : CueUpdates) : bool :=
  bool_decide (is_Some (u_startTime u)) || bool_decide (is_Some (u_duration u))
  || bool_decide (is_Some (u_intensity u)) || bool_decide (is_Some (u_sharpness u))
  || bool_decide (is_Some (u_intensity_start u)) || bool_decide (is_Some (u_intensity_end u))
  || bool_decide (is_Some (u_sharpness_start u)) || bool_decide (is_Some (u_sharpness_end u)).

(** [{ ...cue, ...updates }]: a key of the patch overrides the field of the
    cue.  A key of the other variant's payload lands in a property that no
    reader of that variant looks at, so it leaves the cue as it is here. *)
Definition spread (cue : HapticCue) (updates : CueUpdates) : HapticCue :=
  let b := base cue in
  let b' :=
    mkBase (base_id b)
      (default (base_startTime b) (u_startTime updates))
      (default (base_duration b) (u_duration updates))
      (base_track b) in
  match cue with
  | StaticHapticCue _ t p =>
      StaticHapticCue b' t
        (mkStaticProps
           (default (intensity p) (u_intensity updates))
           (default (sharpness p) (u_sharpness updates)))
  | RampHapticCue _ t p =>
      RampHapticCue b' t
        (mkRampProps
           (default (intensity_start p) (u_intensity_start updates))
           (default (intensity_end p) (u_intensity_end updates))
           (default (sharpness_start p) (u_sharpness_start updates))
           (default (sharpness_end p) (u_sharpness_end updates)))
  end.

(** ** Cue drag gestures ([components/timeline.tsx]) *)

Inductive DragType : Set := move | resize_left | resize_right.

Record DragState : Type := mkDrag {
  drag_type : DragType;
  drag_cueId : string;
  drag_startX : R;
  drag_startTime : R;
  drag_startDuration : R
}.

(** The [mousemove] listener of the cue-drag effect.  The result is the call
    [onCueUpdate(dragState.cueId, updates)] it makes, [None] when it makes
    none. *)
Definition handleMouseMove (v : TimelineView) (cues : list HapticCue)
  (dragState : DragState) (clientX : R) : option (string * CueUpdates) :=
  let duration := totalDuration v in
  let deltaX := clientX - drag_startX dragState in
  let deltaTime := pixelToTime v deltaX in
  match List.find (fun c => bool_decide (id c = drag_cueId dragState)) cues with
  | None => None
  | Some cue =>
      let updates :=
        match drag_type dragState with
        | move =>
            set_startTime
              (Math.max 0
                 (Math.min (duration - drag_startDuration dragState)
                    (drag_startTime dragState + deltaTime)))
              noUpdates
        | resize_left =>
            let newStartTime :=
              Math.max 0 (drag_startTime dragState + deltaTime) in
            let newDuration :=
              drag_startDuration dragState
              - (newStartTime - drag_startTime dragState) in
            if decide (newDuration > 0.1) then
              set_duration newDuration (set_startTime newStartTime noUpdates)
            else noUpdates
        | resize_right =>
            let newDurationRight :=
              Math.max 0.1 (drag_startDuration dragState + deltaTime) in
            if decide (drag_startTime dragState + newDurationRight <= duration)
            then set_duration newDurationRight noUpdates
            else noUpdates
        end in
      if hasKeys updates then Some (drag_cueId dragState, updates) else None
  end.

(** ** Editor session ([components/hapto-editor.tsx]) *)

Record Marquee : Type := mkMarquee {
  isActive : bool;
  startX : R;
  startY : R;
  currentX : R;
  currentY : R
}.

Record SelectionState : Type := mkSelection {
  selectedCueIds : gset string;
  marqueeSelection : option Marquee
}.

(** The state cells of [HaptoEditor] that the cue handlers read and write. *)
Record EditorState : Type := mkEditor {
  cues : list HapticCue;
  selectedCue : option HapticCue;
  selectionState : SelectionState
}.

(** [cues.some(cue => cue.track === track && time >= cue.startTime &&
    time <= cue.startTime + cue.duration)] *)
Definition hasConflict (cues : list HapticCue) (time : R) (track_ : Z) : bool :=
  existsb
    (fun cue =>
       bool_decide (track cue = track_)
       && bool_decide (time >= startTime cue)
       && bool_decide (time <= startTime cue + duration cue))
    cues.

(** [for (let track = ...; track < 8; track++)] with [n] tracks left to
    try; [None] when the loop falls through. *)
Fixpoint scanTracks (cues : list HapticCue) (time : R) (track_ : Z) (n : nat)
  : option Z :=
  match n with
  | O => None
  | S n' =>
      if hasConflict cues time track_
      then scanTracks cues time (track_ + 1)%Z n'
      else Some track_
  end.

Definition findAvailableTrack (cues : list HapticCue) (time : R)
  (preferredTrack : Z) : Z :=
  default preferredTrack
    (scanTracks cues time preferredTrack (Z.to_nat (8 - preferredTrack))).

(** The cue [handleAddCue] builds; [now] is [Date.now().toString()]. *)
Definition newCue (now : string) (type : CueType) (startTime : R) (track_ : Z)
  : HapticCue :=
  let static t :=
    StaticHapticCue (mkBase now startTime 0.5 track_) t (mkStaticProps 0.8 0.5) in
  match type with
  | ramp_up =>
      RampHapticCue (mkBase now startTime 2.0 track_) rt_ramp_up
        (mkRampProps 0.1 1.0 0.1 0.7)
  | ramp_down =>
      RampHapticCue (mkBase now startTime 2.0 track_) rt_ramp_down
        (mkRampProps 1.0 0.1 0.7 0.1)
  | rumble_low => static st_rumble_low
  | rumble_high => static st_rumble_high
  | kick_soft => static st_kick_soft
  | kick_hard => static st_kick_hard
  | heartbeat_slow => static st_heartbeat_slow
  | heartbeat_fast => static st_heartbeat_fast
  | pulse => static st_pulse
  | explosion => static st_explosion
  end.

(** [targetTrack] is [None] for [undefined]. *)
Definition handleAddCue (now : string) (type : CueType) (startTime : R)
  (targetTrack : option Z) (st : EditorState) : EditorState :=
  let track_ :=
    match targetTrack with
    | Some t => t
    | None => findAvailableTrack (cues st) startTime 0
    end in
  mkEditor (cues st ++ [newCue now type startTime track_])
    (selectedCue st) (selectionState st).

Definition handleUpdateCue (cueId : string) (updates : CueUpdates)
  (st : EditorState) : EditorState :=
  mkEditor
    (List.map
       (fun cue => if decide (id cue = cueId) then spread cue updates else cue)
       (cues st))
    (match selectedCue st with
     | Some prev =>
         if decide (id prev = cueId) then Some (spread prev updates)
         else Some prev
     | None => None
     end)
    (selectionState st).

Definition handleDeleteSelectedCues (st : EditorState) : EditorState :=
  let idsToDelete := selectedCueIds (selectionState st) in
  if decide (size idsToDelete = 0%nat) then st
  else
    mkEditor
      (filter (fun cue => id cue ∉ idsToDelete) (cues st))
      None
      (mkSelection ∅ (marqueeSelection (selectionState st))).

(** ** Adjustments panel ([components/adjustments-panel.tsx]) *)

(** [handleDurationChange]: [parsed] is [parseFloat(e.target.value)], [None]
    for [NaN]; the result is the [onUpdate] call, if any. *)
Definition handleDurationChange (cue : HapticCue) (parsed : option R)
  : option (string * CueUpdates) :=
  match parsed with
  | Some duration =>
      if decide (duration > 0) then Some (id cue, set_duration duration noUpdates)
      else None
  | None => None
  end.

(** The six slider handlers and the reset buttons: one parameter key, sent
    only for the variant that has it. *)
Inductive ParamKey : Set :=
  | k_intensity | k_sharpness
  | k_intensity_start | k_intensity_end
  | k_sharpness_start | k_sharpness_end.

Definition paramUpdate (k : ParamKey) (value : R) : CueUpdates :=
  match k with
  | k_intensity => mkUpdates None None (Some value) None None None None None
  | k_sharpness => mkUpdates None None None (Some value) None None None None
  | k_intensity_start => mkUpdates None None None None (Some value) None None None
  | k_intensity_end => mkUpdates None None None None None (Some value) None None
  | k_sharpness_start => mkUpdates None None None None None None (Some value) None
  | k_sharpness_end => mkUpdates None None None None None None None (Some value)
  end.

Definition isRampKey (k : ParamKey) : bool :=
  match k with
  | k_intensity | k_sharpness => false
  | _ => true
  end.

Definition handleParamChange (cue : HapticCue) (k : ParamKey) (value : R)
  : option (string * CueUpdates) :=
  if bool_decide (isRampCue cue = isRampKey k)
  then Some (id cue, paramUpdate k value)
  else None.

(** ** Editing events *)

(** The events through which the session patches a cue: an edit in the panel
    (shown for the primary selection) and a pointer move of a cue drag. *)
Inductive EditEvent : Type :=
  | DurationInput (parsed : option R)
  | ParamInput (k : ParamKey) (value : R)
  | DragMove (v : TimelineView) (dragState : DragState) (clientX : R).

Definition dispatch (call : option (string * CueUpdates)) (st : EditorState)
  : EditorState :=
  match call with
  | Some (cueId, updates) => handleUpdateCue cueId updates st
  | None => st
  end.

Definition step (st : EditorState) (e : EditEvent) : EditorState :=
  match e with
  | DurationInput parsed =>
      match selectedCue st with
      | Some cue => dispatch (handleDurationChange cue parsed) st
      | None => st
      end
  | ParamInput k value =>
      match selectedCue st with
      | Some cue => dispatch (handleParamChange cue k value) st
      | None => st
      end
  | DragMove v dragState clientX =>
      dispatch (handleMouseMove v (cues st) dragState clientX) st
  end.

Definition run (st : EditorState) (es : list EditEvent) : EditorState :=
  fold_left step es st.

(** ** Validity of a cue's time span *)

(** [duration > 0] and [startTime >= 0]. *)
Definition validCue (cue : HapticCue) : Prop :=
  duration cue > 0 /\ startTime cue >= 0.

Definition validState (st : EditorState) : Prop :=
  (forall c, In c (cues st) -> validCue c)
  /\ (forall c, selectedCue st = Some c -> validCue c).

(** A patch that keeps a valid cue valid: the duration it sets, if any, is
    positive and the start time it sets, if any, is not negative. *)
Definition safePatch (u : CueUpdates) : Prop :=
  (forall d, u_duration u = Some d -> d > 0)
  /\ (forall s, u_startTime u = Some s -> s >= 0).

(** [occupied cues t k]: some cue of track [k] has [t] in its closed interval
    [[startTime, startTime + duration]]. *)
Definition occupied (cues : list HapticCue) (t : R) (k : Z) : Prop :=
  exists c, In c cues /\ track c = k
            /\ startTime c <= t /\ t <= startTime c + duration c.

(** ** The ordinate of a ramp sample *)

(** The [y] the ramp loop computes at progress [t] from a base curve value:
    [centerY - (rampValue * amplitude + microVariation * amplitude)] with the
    amplitude and the texture term taken at the interpolated intensity and
    sharpness. *)
Definition rampY (height : R) (p : RampCueProperties) (t rampValue : R) : R :=
  let currentIntensity := currentIntensity p t in
  let currentSharpness := currentSharpness p t in
  let amplitude := currentIntensity * (height * 0.45) in
  let microFreq := 25 + currentSharpness * 15 in
  let microVariation :=
    Math.sin (t * microFreq * 2 * Math.PI) * 0.02 * currentIntensity in
  height / 2 - (rampValue * amplitude + microVariation * amplitude).

(** ** Sample inputs *)

(** A 60 s timeline at zoom 2, panned to 10 s, 600 px wide. *)
Definition view_zoomed : TimelineView := mkView 60 2 10 (Some 600).

(** A one-second pulse cue at 5 s on track 0, and a move gesture on it whose
    pointer went down at x = 100. *)
Definition cue_a : HapticCue :=
  StaticHapticCue (mkBase "a" 5 1 0) st_pulse (mkStaticProps 0.8 0.5).

Definition drag_move_a : DragState := mkDrag move "a" 100 5 1.

(** The two resize gestures on the same cue, pressed at the same x. *)
Definition drag_resize_left_a : DragState := mkDrag resize_left "a" 100 5 1.
Definition drag_resize_right_a : DragState := mkDrag resize_right "a" 100 5 1.

Definition no_selection : SelectionState := mkSelection ∅ None.

(** A session holding [cue_a] alone, nothing selected. *)
Definition session_a : EditorState := mkEditor [cue_a] None no_selection.

(** The same session with [cue_a] as the primary selection. *)
Definition session_a_selected : EditorState :=
  mkEditor [cue_a] (Some cue_a) (mkSelection {["a"]} None).

(** The timeline at zoom 1, not panned. *)
Definition view_fit : TimelineView := mkView 60 1 0 (Some 600).

(** Two cues on track 0, covering [0, 1) and [1, 2). *)
Definition cue_first : HapticCue :=
  StaticHapticCue (mkBase "c1" 0 1 0) st_kick_hard (mkStaticProps 0.8 0.5).

Definition cue_second : HapticCue :=
  StaticHapticCue (mkBase "c2" 1 1 0) st_kick_hard (mkStaticProps 0.8 0.5).

Definition session_two : EditorState :=
  mkEditor [cue_first; cue_second] None no_selection.

(** The default pulse cue made by an insertion at 2 s on track 0. *)
Definition cue_pulse : HapticCue := newCue "p" pulse 2 0.

(** A random source that always draws 0, and one that always draws 0.5. *)
Definition draws_zero : Math.random_source := fun _ => 0.
Definition draws_half : Math.random_source := fun _ => 0.5.

(** A ramp-down cue of 0.55 s at full, constant intensity and sharpness: 33
    samples at zoom 1, so sample 8 is at progress 1/4. *)
Definition ramp_sharp : RampCueProperties := mkRampProps 1 1 1 1.

Definition cue_ramp_sharp : HapticCue :=
  RampHapticCue (mkBase "r" 0 0.55 0) rt_ramp_down ramp_sharp.

(** The default low rumble made by an insertion at 0 s on track 0. *)
Definition cue_rumble : HapticCue := newCue "u" rumble_low 0 0.

(** ** Zoom and pan of the timeline ([components/timeline.tsx]) *)

Definition handleZoomIn (v : TimelineView) : TimelineView :=
  let newZoomLevel := Math.min (zoomLevel v * 2) 16 in
  let centerTime := viewStartTime v + visibleDuration v / 2 in
  let newVisibleDuration := totalDuration v / newZoomLevel in
  let newViewStartTime :=
    Math.max 0
      (Math.min (totalDuration v - newVisibleDuration)
         (centerTime - newVisibleDuration / 2)) in
  mkView (totalDuration v) newZoomLevel newViewStartTime (timelineWidth v).

Definition handleZoomOut (currentTime : R) (v : TimelineView) : TimelineView :=
  let newZoomLevel := Math.max (zoomLevel v / 2) 0.25 in
  let newVisibleDuration := totalDuration v / newZoomLevel in
  if decide (newVisibleDuration >= totalDuration v) then
    mkView (totalDuration v) newZoomLevel 0 (timelineWidth v)
  else
    let newViewStartTime :=
      Math.max 0
        (Math.min (totalDuration v - newVisibleDuration)
           (currentTime - newVisibleDuration / 2)) in
    mkView (totalDuration v) newZoomLevel newViewStartTime (timelineWidth v).

(** The effect that keeps the playhead visible: it runs after a render and
    sets [viewStartTime] when [currentTime] is outside the window. *)
Definition adjustView (currentTime : R) (v : TimelineView) : TimelineView :=
  if decide (currentTime < viewStartTime v
             \/ currentTime > viewStartTime v + visibleDuration v)
  then
    let newViewStartTime :=
      Math.max 0
        (Math.min (totalDuration v - visibleDuration v)
           (currentTime - visibleDuration v / 2)) in
    mkView (totalDuration v) (zoomLevel v) newViewStartTime (timelineWidth v)
  else v.

(** The window [[viewStartTime, viewStartTime + visibleDuration]] lies in the
    timeline, and starts at 0 when it is longer than the timeline. *)
Definition windowInTimeline (v : TimelineView) : Prop :=
  0 <= viewStartTime v
  /\ viewStartTime v <= Math.max 0 (totalDuration v - visibleDuration v).

(** ** Scrubbing and cue gestures ([components/timeline.tsx]) *)

(** The time the scrub listener seeks to; [x] is the pointer's offset in the
    ruler. *)
Definition scrubTime (v : TimelineView) (x : R) : R :=
  Math.max 0 (Math.min (totalDuration v) (pixelToTime v x)).

(** [handleCueMouseDown]: the selection call it makes and the drag state it
    sets. *)
Definition handleCueMouseDown (clientX : R) (ctrlOrMeta : bool)
  (cue : HapticCue) (type : DragType)
  : (option HapticCue * bool) * DragState :=
  ((Some cue, ctrlOrMeta),
   mkDrag type (id cue) clientX (startTime cue) (duration cue)).

(** ** Drop of a library cue ([components/timeline.tsx]) *)

(** [Math.max(0, Math.min(7, Math.floor((y - 40) / 36)))] *)
Definition dropTrack (y : R) : Z :=
  Z.max 0 (Z.min 7 (Math.floor ((y - 40) / 36))).

(** What the drop handler reads of [e.dataTransfer]: the [cueType] of the
    parsed object is one of the ten cue types or any other value (another
    string, a number, absent). *)
Inductive PayloadKind : Type :=
  | KnownKind (cueType : CueType)
  | OtherKind.

(** [Unusable]: [JSON.parse], or the read of [dragData.type], throws.
    [Parsed type cueType]: the data parses; [type] is [dragData.type] when
    it is a string, [None] otherwise. *)
Inductive DropData : Type :=
  | Unusable
  | Parsed (type_ : option string) (cueType : PayloadKind).

(** [handleDrop].  [rect] is the bounding rectangle of the tracks container
    as [(left, top)], [None] when the ref is not attached.  The result is the
    [onAddCue] call, if any; the handler tests the tag only and passes
    [dragData.cueType] on as it is. *)
Definition handleDrop (v : TimelineView) (data : DropData)
  (rect : option (R * R)) (clientX clientY : R)
  : option (PayloadKind * R * option Z) :=
  match data, rect with
  | Parsed (Some tag) cueType, Some (rectLeft, rectTop) =>
      if decide (tag = "cue-from-library") then
        let x := clientX - rectLeft in
        let y := clientY - rectTop in
        let time := pixelToTime v x in
        let targetTrack := dropTrack y in
        Some (cueType, time, Some targetTrack)
      else None
  | _, _ => None
  end.

(** The session after a drop: the [onAddCue] call, if made, runs
    [handleAddCue].  With a kind that is not a cue type the code appends an
    object whose [type] is outside [CueType]; such a session is not one of
    [EditorState], and the result is [None]. *)
Definition drop (now : string) (v : TimelineView) (data : DropData)
  (rect : option (R * R)) (clientX clientY : R) (st : EditorState)
  : option EditorState :=
  match handleDrop v data rect clientX clientY with
  | Some (KnownKind cueType, time, targetTrack) =>
      Some (handleAddCue now cueType time targetTrack st)
  | Some (OtherKind, _, _) => None
  | None => Some st
  end.

(** ** Selection ([components/hapto-editor.tsx]) *)

(** [cues.find(c => ids.has(c.id)) || null] *)
Definition firstSelected (cues : list HapticCue) (ids : gset string)
  : option HapticCue :=
  List.find (fun c => bool_decide (id c ∈ ids)) cues.

Definition handleCueSelect (cue : option HapticCue) (ctrlKey : bool)
  (st : EditorState) : EditorState :=
  let prev := selectionState st in
  match cue with
  | None =>
      mkEditor (cues st) None (mkSelection ∅ (marqueeSelection prev))
  | Some cue =>
      if ctrlKey then
        if decide (id cue ∈ selectedCueIds prev) then
          let newSelectedIds : gset string := selectedCueIds prev ∖ {[id cue]} in
          mkEditor (cues st)
            (if decide (0 < size newSelectedIds)%nat
             then firstSelected (cues st) newSelectedIds
             else None)
            (mkSelection newSelectedIds (marqueeSelection prev))
        else
          let newSelectedIds : gset string := selectedCueIds prev ∪ {[id cue]} in
          mkEditor (cues st) (Some cue)
            (mkSelection newSelectedIds (marqueeSelection prev))
      else
        mkEditor (cues st) (Some cue)
          (mkSelection ({[id cue]} : gset string) (marqueeSelection prev))
  end.

Definition handleDeleteCue (cueId : string) (st : EditorState) : EditorState :=
  mkEditor
    (filter (fun cue => id cue <> cueId) (cues st))
    (match selectedCue st with
     | Some c => if decide (id c = cueId) then None else Some c
     | None => None
     end)
    (selectionState st).

(** ** Marquee selection *)

(** A [DOMRect] built by [new DOMRect(x, y, width, height)]. *)
Record DOMRect : Type := mkRect {
  rect_x : R;
  rect_y : R;
  rect_width : R;
  rect_height : R
}.

Definition rect_left (r : DOMRect) : R :=
  Math.min (rect_x r) (rect_x r + rect_width r).
Definition rect_right (r : DOMRect) : R :=
  Math.max (rect_x r) (rect_x r + rect_width r).
Definition rect_top (r : DOMRect) : R :=
  Math.min (rect_y r) (rect_y r + rect_height r).
Definition rect_bottom (r : DOMRect) : R :=
  Math.max (rect_y r) (rect_y r + rect_height r).

(** The box [handleMarqueeSelection] gives a cue: [videoDuration] is the
    [duration] cell of the editor (the length of the video), [width] the
    width of the timeline rectangle.  The code divides by [videoDuration]
    without a test; the definitions are those of the code for a duration
    that is not 0 (at 0, the value of the cell before a video is loaded, the
    code computes with NaN and Infinity). *)
Definition cueLeft (videoDuration width : R) (cue : HapticCue) : R :=
  (startTime cue / videoDuration) * width.
Definition cueTop (cue : HapticCue) : R := IZR (track cue) * 36 + 40.
Definition cueWidth (videoDuration width : R) (cue : HapticCue) : R :=
  (duration cue / videoDuration) * width.
Definition cueHeight : R := 32.
Definition cueRight (videoDuration width : R) (cue : HapticCue) : R :=
  cueLeft videoDuration width cue + cueWidth videoDuration width cue.
Definition cueBottom (cue : HapticCue) : R := cueTop cue + cueHeight.

Definition intersects (videoDuration : R) (marqueeRect timelineRect : DOMRect)
  (cue : HapticCue) : bool :=
  negb
    (bool_decide
       (rect_right marqueeRect
        < cueLeft videoDuration (rect_width timelineRect) cue)
     || bool_decide
          (rect_left marqueeRect
           > cueRight videoDuration (rect_width timelineRect) cue)
     || bool_decide (rect_bottom marqueeRect < cueTop cue)
     || bool_decide (rect_top marqueeRect > cueBottom cue)).

(** [cues.forEach(cue => { ...; if (intersects) selectedIds.add(cue.id) })] *)
Definition marqueeIds (videoDuration : R) (marqueeRect timelineRect : DOMRect)
  (cues : list HapticCue) : gset string :=
  fold_left
    (fun selectedIds cue =>
       if intersects videoDuration marqueeRect timelineRect cue
       then selectedIds ∪ {[id cue]}
       else selectedIds)
    cues ∅.

Definition handleMarqueeSelection (videoDuration : R)
  (marqueeRect timelineRect : DOMRect) (st : EditorState) : EditorState :=
  let selectedIds :=
    marqueeIds videoDuration marqueeRect timelineRect (cues st) in
  mkEditor (cues st)
    (if decide (0 < size selectedIds)%nat
     then firstSelected (cues st) selectedIds
     else None)
    (mkSelection selectedIds (marqueeSelection (selectionState st))).

(** The [mouseup] listener of the marquee effect in the timeline;
    [containerRect] is the rectangle of the tracks container, [None] when
    the ref is not attached.  The result is the [onMarqueeSelection] call,
    if any. *)
Definition marqueeMouseUp (marqueeState : option Marquee)
  (containerRect : option DOMRect) : option (DOMRect * DOMRect) :=
  match marqueeState, containerRect with
  | Some m, Some rect =>
      let marqueeRect :=
        mkRect (Math.min (startX m) (currentX m))
          (Math.min (startY m) (currentY m))
          (Math.abs (currentX m - startX m))
          (Math.abs (currentY m - startY m)) in
      if bool_decide (rect_width marqueeRect > 5)
         && bool_decide (rect_height marqueeRect > 5)
      then Some (marqueeRect, rect)
      else None
  | _, _ => None
  end.

Definition marqueeRelease (videoDuration : R) (marqueeState : option Marquee)
  (containerRect : option DOMRect) (st : EditorState) : EditorState :=
  match marqueeMouseUp marqueeState containerRect with
  | Some (marqueeRect, rect) =>
      handleMarqueeSelection videoDuration marqueeRect rect st
  | None => st
  end.

(** ** Export ([components/hapto-editor.tsx]) *)

Record StaticExportCue : Type := mkStaticExport {
  se_timestamp : R;
  se_duration : R;
  se_type : StaticCueType;
  se_intensity : R;
  se_sharpness : R
}.

Record RampExportCue : Type := mkRampExport {
  re_timestamp : R;
  re_duration : R;
  re_type : RampCueType;
  re_intensity_start : R;
  re_intensity_end : R;
  re_sharpness_start : R;
  re_sharpness_end : R
}.

Inductive ExportCue : Type :=
  | ExportStatic (c : StaticExportCue)
  | ExportRamp (c : RampExportCue).

(** The body of [cues.map(cue => ...)] in [handleExport]. *)
Definition exportCue (cue : HapticCue) : ExportCue :=
  match cue with
  | RampHapticCue b t p =>
      ExportRamp
        (mkRampExport (base_startTime b) (base_duration b) t
           (intensity_start p) (intensity_end p)
           (sharpness_start p) (sharpness_end p))
  | StaticHapticCue b t p =>
      ExportStatic
        (mkStaticExport (base_startTime b) (base_duration b) t
           (intensity p) (sharpness p))
  end.

(** [hapticData.cues] and [metadata.cue_count] of [handleExport]. *)
Definition exportCues (cues : list HapticCue) : list ExportCue :=
  List.map exportCue cues.

Definition cue_count (cues : list HapticCue) : nat := length cues.

(** ** Frame stepping ([components/video-player.tsx]) *)

(** The two handlers with the video element attached; the result is the time
    they seek to. *)

Definition handlePreviousFrame (frameRate currentTime : R) : R :=
  let frameDuration := 1 / frameRate in
  Math.max 0 (currentTime - frameDuration).

(** [videoDuration] is [video.duration], [None] for [NaN];
    [video.duration || 0] is then [0], as it is for a duration [0]. *)
Definition handleNextFrame (videoDuration : option R)
  (frameRate currentTime : R) : R :=
  let frameDuration := 1 / frameRate in
  Math.min (default 0 videoDuration) (currentTime + frameDuration).

(** ** Audio peaks ([lib/audio-processor.ts]) *)

(** The inner loop: the greatest [|samples[j]|] for [start <= j < end],
    from [max = 0]. *)
Definition windowPeak (samples : list R) (start end_ : nat) : R :=
  fold_left (fun max j => Math.max max (Math.abs (nth j samples 0)))
    (seq start (end_ - start)) 0.

(** [samples] is the [Float32Array], [targetPeakCount] a count.  With
    [targetPeakCount = 0] the loop does not run. *)
Definition generateAudioPeaks (samples : list R) (targetPeakCount : nat)
  : list R :=
  let samplesPerPeak := (length samples / targetPeakCount)%nat in
  List.map
    (fun i =>
       let start := (i * samplesPerPeak)%nat in
       let end_ := Nat.min (start + samplesPerPeak) (length samples) in
       windowPeak samples start end_)
    (seq 0 targetPeakCount).

(** ** Cues up to id and track *)

(** The cue with its [id] and [track] replaced. *)
Definition relabel (i : string) (k : Z) (cue : HapticCue) : HapticCue :=
  let b := base cue in
  let b' := mkBase i (base_startTime b) (base_duration b) k in
  match cue with
  | StaticHapticCue _ t p => StaticHapticCue b' t p
  | RampHapticCue _ t p => RampHapticCue b' t p
  end.

(** ** More sample inputs *)

(** Six samples, to be reduced to two peaks. *)
Definition samples_six : list R := [0.1; -0.5; 0.2; 0.3; -0.2; 0.25].

(** The default cues made by an insertion at 0 s on track 0. *)
Definition cue_kick : HapticCue := newCue "k" kick_hard 0 0.
Definition cue_heartbeat : HapticCue := newCue "h" heartbeat_slow 0 0.
Definition cue_explosion : HapticCue := newCue "e" explosion 0 0.
Definition cue_ramp_up : HapticCue := newCue "ru" ramp_up 0 0.

(** A timeline rectangle 600 px wide, and a marquee of 20 x 40 px around
    the box of a cue that starts at 0 s and lasts 1 s on track 0 of a 60 s
    video (the box is [[0, 10] x [40, 72]]). *)
Definition timeline_rect : DOMRect := mkRect 0 0 600 400.
Definition marquee_first : DOMRect := mkRect (-5) 36 20 40.

(** * Properties *)

(** ** Auxiliary facts on numbers *)

Ltac minmax :=
  unfold Math.max, Math.min, Rmax, Rmin in *;
  repeat match goal with
         | |- context [Rle_dec ?a ?b] => destruct (Rle_dec a b)
         | H : context [Rle_dec ?a ?b] |- _ => destruct (Rle_dec a b)
         end.

Lemma max_lower (a b : R) : a <= Math.max a b.
Proof. minmax; lra. Qed.

Lemma max_upper (a b : R) : b <= Math.max a b.
Proof. minmax; lra. Qed.

(** ** View and coordinate model *)

Section Coordinates.

Variable v : TimelineView.
Variable w : R.
Hypothesis attached : timelineWidth v = Some w.
Hypothesis visible : visibleDuration v <> 0.

Lemma timeToPixel_eq (t : R) :
  timeToPixel v t = (t - viewStartTime v) / visibleDuration v * w.
Proof.
  unfold timeToPixel. rewrite attached.
  destruct (decide (visibleDuration v = 0)); [contradiction | reflexivity].
Qed.

Lemma pixelToTime_eq (p : R) :
  pixelToTime v p = viewStartTime v + p / w * visibleDuration v.
Proof.
  unfold pixelToTime. rewrite attached.
  destruct (decide (visibleDuration v = 0)); [contradiction | reflexivity].
Qed.

End Coordinates.

(** C2: with a positive visible duration and a positive timeline width,
    [timeToPixel t] is [(t - viewStartTime) / visibleDuration * width],
    [pixelToTime p] is [viewStartTime + p / width * visibleDuration], and the
    two are inverse to each other: mapping a time to a pixel and back gives
    the time, and mapping a pixel to a time and back gives the pixel (in real
    arithmetic). *)
Theorem pixelToTime_timeToPixel (v : TimelineView) (w t p : R) :
  timelineWidth v = Some w ->
  0 < w ->
  0 < visibleDuration v ->
  timeToPixel v t = (t - viewStartTime v) / visibleDuration v * w
  /\ pixelToTime v (timeToPixel v t) = t
  /\ timeToPixel v (pixelToTime v p) = p.
Proof.
  intros Hw Hpos Hvis.
  assert (Hne : visibleDuration v <> 0) by lra.
  split; [now apply timeToPixel_eq |].
  rewrite !(pixelToTime_eq v w Hw Hne), !(timeToPixel_eq v w Hw Hne).
  split; field; lra.
Qed.

Lemma pixelToTime_timeToPixel_witness :
  timeToPixel view_zoomed 25
  = (25 - viewStartTime view_zoomed) / visibleDuration view_zoomed * 600
  /\ pixelToTime view_zoomed (timeToPixel view_zoomed 25) = 25
  /\ timeToPixel view_zoomed (pixelToTime view_zoomed 300) = 300.
Proof.
  apply (pixelToTime_timeToPixel view_zoomed 600 25 300).
  - reflexivity.
  - lra.
  - unfold visibleDuration, view_zoomed; simpl; lra.
Defined.

(** ** Cue drag gestures *)

Section Drag.

Variable v : TimelineView.
Variable cues : list HapticCue.
Variable dragState : DragState.
Variable clientX : R.
Variable cue : HapticCue.

Hypothesis found :
  List.find (fun c => bool_decide (id c = drag_cueId dragState)) cues
  = Some cue.

Let deltaTime : R := pixelToTime v (clientX - drag_startX dragState).

Lemma handleMouseMove_move :
  drag_type dragState = move ->
  handleMouseMove v cues dragState clientX
  = Some (drag_cueId dragState,
          set_startTime
            (Math.max 0
               (Math.min (totalDuration v - drag_startDuration dragState)
                  (drag_startTime dragState + deltaTime)))
            noUpdates).
Proof.
  intros Hty. unfold handleMouseMove. rewrite found, Hty. reflexivity.
Qed.

Lemma handleMouseMove_resize_left :
  drag_type dragState = resize_left ->
  let newStartTime := Math.max 0 (drag_startTime dragState + deltaTime) in
  let newDuration :=
    drag_startDuration dragState - (newStartTime - drag_startTime dragState) in
  handleMouseMove v cues dragState clientX
  = if decide (newDuration > 0.1)
    then Some (drag_cueId dragState,
               set_duration newDuration (set_startTime newStartTime noUpdates))
    else None.
Proof.
  intros Hty. unfold handleMouseMove. rewrite found, Hty. cbv zeta.
  fold deltaTime. case_decide; reflexivity.
Qed.

Lemma handleMouseMove_resize_right :
  drag_type dragState = resize_right ->
  let newDurationRight :=
    Math.max 0.1 (drag_startDuration dragState + deltaTime) in
  handleMouseMove v cues dragState clientX
  = if decide (drag_startTime dragState + newDurationRight <= totalDuration v)
    then Some (drag_cueId dragState, set_duration newDurationRight noUpdates)
    else None.
Proof.
  intros Hty. unfold handleMouseMove. rewrite found, Hty. cbv zeta.
  fold deltaTime. case_decide; reflexivity.
Qed.

End Drag.

Lemma handleMouseMove_not_found v cues dragState clientX :
  List.find (fun c => bool_decide (id c = drag_cueId dragState)) cues = None ->
  handleMouseMove v cues dragState clientX = None.
Proof. intros H. unfold handleMouseMove. now rewrite H. Qed.

(** The delta the move case adds to the start time is the image of the pixel
    delta under [pixelToTime]: the scaled delta plus the pan offset. *)
Lemma handleMouseMove_move_panned (v : TimelineView) (w : R)
  (cues : list HapticCue) (dragState : DragState) (clientX : R)
  (cue : HapticCue) :
  timelineWidth v = Some w ->
  visibleDuration v <> 0 ->
  List.find (fun c => bool_decide (id c = drag_cueId dragState)) cues
  = Some cue ->
  drag_type dragState = move ->
  handleMouseMove v cues dragState clientX
  = Some (drag_cueId dragState,
          set_startTime
            (Math.max 0
               (Math.min (totalDuration v - drag_startDuration dragState)
                  (drag_startTime dragState
                   + (viewStartTime v
                      + (clientX - drag_startX dragState) / w
                        * visibleDuration v))))
            noUpdates).
Proof.
  intros Hw Hvis Hfind Hty.
  rewrite (handleMouseMove_move v cues dragState clientX cue Hfind Hty).
  now rewrite (pixelToTime_eq v w Hw Hvis).
Qed.

(** C3: on a view panned to 10 s, a move gesture whose pointer has not moved
    (pixel delta 0) sends the cue from 5 s to 15 s: the delta is mapped by
    [pixelToTime], which adds [viewStartTime], whereas scaling the delta by
    [visibleDuration / timelineWidth] alone leaves the cue at 5 s. *)
Theorem move_delta_includes_viewStartTime :
  handleMouseMove view_zoomed [cue_a] drag_move_a 100
  = Some ("a", set_startTime 15 noUpdates)
  /\ Math.max 0
       (Math.min (totalDuration view_zoomed - drag_startDuration drag_move_a)
          (drag_startTime drag_move_a
           + (100 - drag_startX drag_move_a)
             * visibleDuration view_zoomed / 600))
     = 5.
Proof.
  split.
  - rewrite (handleMouseMove_move _ _ _ _ cue_a); [| reflexivity | reflexivity].
    rewrite (pixelToTime_eq view_zoomed 600);
      [| reflexivity | unfold visibleDuration; simpl; lra].
    unfold visibleDuration, view_zoomed, drag_move_a; simpl.
    do 3 f_equal. minmax; lra.
  - unfold visibleDuration, view_zoomed, drag_move_a; simpl. minmax; lra.
Qed.

(** ** Cue patches *)

Lemma duration_spread (cue : HapticCue) (u : CueUpdates) :
  duration (spread cue u) = default (duration cue) (u_duration u).
Proof. destruct cue; reflexivity. Qed.

Lemma startTime_spread (cue : HapticCue) (u : CueUpdates) :
  startTime (spread cue u) = default (startTime cue) (u_startTime u).
Proof. destruct cue; reflexivity. Qed.

Lemma id_spread (cue : HapticCue) (u : CueUpdates) : id (spread cue u) = id cue.
Proof. destruct cue; reflexivity. Qed.

Lemma in_handleUpdateCue (cueId : string) (u : CueUpdates) (st : EditorState)
  (c' : HapticCue) :
  In c' (cues (handleUpdateCue cueId u st)) ->
  In c' (cues st) \/ exists c, In c (cues st) /\ id c = cueId /\ c' = spread c u.
Proof.
  unfold handleUpdateCue; simpl. rewrite in_map_iff. intros (c & <- & Hin).
  case_decide; [right; exists c | left]; auto.
Qed.

Lemma dispatch_None (st : EditorState) : dispatch None st = st.
Proof. reflexivity. Qed.

(** The guards of the two resize cases, at the level of the session, with
    [dt] the delta as the handler computes it: [pixelToTime] of the pixel
    delta, which is the scaled delta plus the pan offset [viewStartTime].
    A pointer move either leaves the session as it is or applies one patch;
    resize-left applies [startTime' = max(0, startTime + dt)] and
    [duration' = startDuration - (startTime' - startTime)] only with
    [duration' > 0.1], resize-right applies [duration' = max(0.1,
    startDuration + dt)] only with [startTime + duration' <= totalDuration]. *)
Theorem resize_update_bounds (st : EditorState) (v : TimelineView)
  (cueId : string) (pointerX startTime0 startDuration clientX : R) :
  let dt := pixelToTime v (clientX - pointerX) in
  let left :=
    DragMove v (mkDrag resize_left cueId pointerX startTime0 startDuration)
      clientX in
  let right :=
    DragMove v (mkDrag resize_right cueId pointerX startTime0 startDuration)
      clientX in
  let startTime' := Math.max 0 (startTime0 + dt) in
  let durationL := startDuration - (startTime' - startTime0) in
  let durationR := Math.max 0.1 (startDuration + dt) in
  (step st left = st
   \/ durationL > 0.1
      /\ step st left
         = handleUpdateCue cueId
             (set_duration durationL (set_startTime startTime' noUpdates)) st)
  /\ (step st right = st
      \/ startTime0 + durationR <= totalDuration v
         /\ step st right
            = handleUpdateCue cueId (set_duration durationR noUpdates) st)
  /\ (forall c, In c (cues (step st left)) ->
        In c (cues st)
        \/ startTime c = startTime' /\ duration c = durationL
           /\ durationL > 0.1)
  /\ (forall c, In c (cues (step st right)) ->
        In c (cues st)
        \/ duration c = durationR
           /\ startTime0 + durationR <= totalDuration v).
Proof.
  intros dt left right startTime' durationL durationR.
  assert (HL : step st left = st
               \/ durationL > 0.1
                  /\ step st left
                     = handleUpdateCue cueId
                         (set_duration durationL
                            (set_startTime startTime' noUpdates)) st).
  { unfold left, step.
    destruct (List.find (fun c => bool_decide (id c = cueId)) (cues st))
      as [cue|] eqn:Hfind.
    - rewrite (handleMouseMove_resize_left _ _ _ _ cue); [| exact Hfind | reflexivity].
      cbv zeta; simpl drag_startTime; simpl drag_startDuration;
        simpl drag_startX; simpl drag_cueId.
      fold dt. fold startTime'. fold durationL.
      case_decide; [right; split; [assumption | reflexivity] | left; reflexivity].
    - rewrite handleMouseMove_not_found; [left; reflexivity | exact Hfind]. }
  assert (HR : step st right = st
               \/ startTime0 + durationR <= totalDuration v
                  /\ step st right
                     = handleUpdateCue cueId
                         (set_duration durationR noUpdates) st).
  { unfold right, step.
    destruct (List.find (fun c => bool_decide (id c = cueId)) (cues st))
      as [cue|] eqn:Hfind.
    - rewrite (handleMouseMove_resize_right _ _ _ _ cue); [| exact Hfind | reflexivity].
      cbv zeta; simpl drag_startTime; simpl drag_startDuration;
        simpl drag_startX; simpl drag_cueId.
      fold dt. fold durationR.
      case_decide; [right; split; [assumption | reflexivity] | left; reflexivity].
    - rewrite handleMouseMove_not_found; [left; reflexivity | exact Hfind]. }
  repeat split; try assumption.
  - intros c Hc. destruct HL as [Heq | [Hgt Heq]]; rewrite Heq in Hc; [left; exact Hc |].
    apply in_handleUpdateCue in Hc.
    destruct Hc as [Hc | (c0 & _ & _ & ->)]; [left; exact Hc | right].
    rewrite startTime_spread, duration_spread. simpl. auto.
  - intros c Hc. destruct HR as [Heq | [Hle Heq]]; rewrite Heq in Hc; [left; exact Hc |].
    apply in_handleUpdateCue in Hc.
    destruct Hc as [Hc | (c0 & _ & _ & ->)]; [left; exact Hc | right].
    rewrite duration_spread. simpl. auto.
Qed.

Example resize_left_applied :
  step session_a (DragMove view_fit (mkDrag resize_left "a" 100 5 1) 103)
  = handleUpdateCue "a"
      (set_duration 0.7 (set_startTime 5.3 noUpdates)) session_a.
Proof.
  unfold step.
  rewrite (handleMouseMove_resize_left _ _ _ _ cue_a); [| reflexivity | reflexivity].
  rewrite (pixelToTime_eq view_fit 600);
    [| reflexivity | unfold visibleDuration; simpl; lra].
  cbv zeta. unfold visibleDuration, view_fit; simpl.
  replace (Math.max 0 (5 + (0 + (103 - 100) / 600 * (60 / 1)))) with 5.3
    by (minmax; lra).
  replace (1 - (5.3 - 5)) with 0.7 by lra.
  case_decide; [reflexivity | lra].
Qed.

Example resize_left_rejected :
  step session_a (DragMove view_fit (mkDrag resize_left "a" 100 5 1) 110)
  = session_a.
Proof.
  unfold step.
  rewrite (handleMouseMove_resize_left _ _ _ _ cue_a); [| reflexivity | reflexivity].
  rewrite (pixelToTime_eq view_fit 600);
    [| reflexivity | unfold visibleDuration; simpl; lra].
  cbv zeta. unfold visibleDuration, view_fit; simpl.
  replace (Math.max 0 (5 + (0 + (110 - 100) / 600 * (60 / 1)))) with 6
    by (minmax; lra).
  case_decide; [lra | reflexivity].
Qed.

(** C4: on a view panned to 10 s, a resize gesture whose pointer has not
    moved (pixel delta 0, so [dt = 0] as the claim maps it) does not apply
    the claim's update.  Resize-right sends [duration = 11] where the claim
    gives [max(0.1, 1 + 0) = 1]; resize-left sends nothing, the cue stays
    frozen, where the claim applies [startTime' = 5] and [duration' = 1 >
    0.1].  The handler maps the pixel delta by [pixelToTime], which adds
    [viewStartTime] to it. *)
Theorem resize_delta_includes_viewStartTime :
  handleMouseMove view_zoomed [cue_a] drag_resize_right_a 100
  = Some ("a", set_duration 11 noUpdates)
  /\ Math.max 0.1
       (drag_startDuration drag_resize_right_a
        + (100 - drag_startX drag_resize_right_a)
          * visibleDuration view_zoomed / 600)
     = 1
  /\ handleMouseMove view_zoomed [cue_a] drag_resize_left_a 100 = None
  /\ (let dt :=
        (100 - drag_startX drag_resize_left_a)
        * visibleDuration view_zoomed / 600 in
      let startTime' := Math.max 0 (drag_startTime drag_resize_left_a + dt) in
      let duration' :=
        drag_startDuration drag_resize_left_a
        - (startTime' - drag_startTime drag_resize_left_a) in
      startTime' = 5 /\ duration' = 1 /\ duration' > 0.1).
Proof.
  assert (Hdelta : forall sx, sx = 100 -> pixelToTime view_zoomed (100 - sx) = 10).
  { intros sx ->. rewrite (pixelToTime_eq view_zoomed 600);
      [| reflexivity | unfold visibleDuration; simpl; lra].
    unfold visibleDuration, view_zoomed; simpl. lra. }
  split; [| split; [| split]].
  - rewrite (handleMouseMove_resize_right _ _ _ _ cue_a);
      [| reflexivity | reflexivity].
    cbv zeta. rewrite Hdelta by reflexivity.
    unfold drag_resize_right_a, view_zoomed; simpl.
    replace (Math.max 0.1 (1 + 10)) with 11 by (minmax; lra).
    case_decide; [reflexivity | lra].
  - unfold visibleDuration, view_zoomed, drag_resize_right_a; simpl.
    minmax; lra.
  - rewrite (handleMouseMove_resize_left _ _ _ _ cue_a);
      [| reflexivity | reflexivity].
    cbv zeta. rewrite Hdelta by reflexivity.
    unfold drag_resize_left_a; simpl.
    replace (Math.max 0 (5 + 10)) with 15 by (minmax; lra).
    case_decide; [lra | reflexivity].
  - cbv zeta. unfold visibleDuration, view_zoomed, drag_resize_left_a; simpl.
    replace (Math.max 0 (5 + (100 - 100) * (60 / 2) / 600)) with 5
      by (minmax; lra).
    lra.
Qed.

(** ** The update operation and the editing surfaces *)

Lemma spread_valid (cue : HapticCue) (u : CueUpdates) :
  validCue cue -> safePatch u -> validCue (spread cue u).
Proof.
  intros [Hd Hs] [Hud Hus]. unfold validCue.
  rewrite duration_spread, startTime_spread. split.
  - destruct (u_duration u) as [d|]; simpl; auto.
  - destruct (u_startTime u) as [s|]; simpl; auto.
Qed.

Lemma handleUpdateCue_valid (cueId : string) (u : CueUpdates) (st : EditorState) :
  safePatch u -> validState st -> validState (handleUpdateCue cueId u st).
Proof.
  intros Hu [Hcues Hsel]. split.
  - intros c Hc. apply in_handleUpdateCue in Hc.
    destruct Hc as [Hc | (c0 & Hc0 & _ & ->)]; [auto |].
    apply spread_valid; auto.
  - intros c. unfold handleUpdateCue; simpl.
    destruct (selectedCue st) as [prev|]; [| discriminate].
    case_decide; intros [= <-]; [apply spread_valid |]; auto.
Qed.

Lemma handleDurationChange_safe cue parsed cueId u :
  handleDurationChange cue parsed = Some (cueId, u) -> safePatch u.
Proof.
  unfold handleDurationChange. destruct parsed as [d|]; [| discriminate].
  case_decide; [| discriminate]. intros [= _ <-]. split; simpl.
  - now intros d' [= <-].
  - discriminate.
Qed.

Lemma handleParamChange_safe cue k value cueId u :
  handleParamChange cue k value = Some (cueId, u) -> safePatch u.
Proof.
  unfold handleParamChange. case_bool_decide; [| discriminate].
  intros [= _ <-]. split; destruct k; simpl; discriminate.
Qed.

Lemma handleMouseMove_safe v cues dragState clientX cueId u :
  handleMouseMove v cues dragState clientX = Some (cueId, u) -> safePatch u.
Proof.
  unfold handleMouseMove.
  destruct (List.find _ cues) as [cue|]; [| discriminate].
  destruct (drag_type dragState); cbv zeta.
  - simpl. intros [= _ <-]. split; simpl; [discriminate |].
    intros s [= <-]. apply Rle_ge, max_lower.
  - case_decide as Hgt; simpl; [| discriminate].
    intros [= _ <-]. split; simpl.
    + intros d [= <-]. lra.
    + intros s [= <-]. apply Rle_ge, max_lower.
  - case_decide as Hle; simpl; [| discriminate].
    intros [= _ <-]. split; simpl; [| discriminate].
    intros d [= <-].
    pose proof (max_lower 0.1 (drag_startDuration dragState
      + pixelToTime v (clientX - drag_startX dragState))). lra.
Qed.

Lemma step_valid (st : EditorState) (e : EditEvent) :
  validState st -> validState (step st e).
Proof.
  intros Hst. destruct e as [parsed | k value | v dragState clientX]; simpl.
  - destruct (selectedCue st) as [cue|]; [| exact Hst].
    destruct (handleDurationChange cue parsed) as [[cueId u]|] eqn:Hcall;
      [| exact Hst].
    apply handleUpdateCue_valid; eauto using handleDurationChange_safe.
  - destruct (selectedCue st) as [cue|]; [| exact Hst].
    destruct (handleParamChange cue k value) as [[cueId u]|] eqn:Hcall;
      [| exact Hst].
    apply handleUpdateCue_valid; eauto using handleParamChange_safe.
  - destruct (handleMouseMove v (cues st) dragState clientX)
      as [[cueId u]|] eqn:Hcall; [| exact Hst].
    apply handleUpdateCue_valid; eauto using handleMouseMove_safe.
Qed.

(** C5, as the code has it: [handleUpdateCue] merges the patch into the cue
    without looking at its values; the patches are checked where they are
    made.  The duration field of the panel sends a duration only when it is
    positive, the sliders send neither field, and a pointer move of a drag
    sends a start time [>= 0] and a duration [> 0].  So after any sequence of
    these edits every cue (and the primary selection) still has
    [duration > 0] and [startTime >= 0], when this held before. *)
Theorem edits_preserve_validity (st : EditorState) (es : list EditEvent) :
  validState st -> validState (run st es).
Proof.
  unfold run. revert st. induction es as [| e es IH]; intros st Hst; simpl.
  - exact Hst.
  - apply IH, step_valid, Hst.
Qed.

Lemma session_a_selected_valid : validState session_a_selected.
Proof.
  assert (Ha : validCue cue_a) by (unfold validCue, duration, startTime, cue_a; simpl; lra).
  split.
  - intros c [<- | []]. exact Ha.
  - intros c [= <-]. exact Ha.
Qed.

Lemma edits_preserve_validity_witness :
  validState
    (run session_a_selected
       [DurationInput (Some (-1)); DurationInput (Some 2);
        DragMove view_zoomed drag_move_a 40;
        DragMove view_fit (mkDrag resize_left "a" 100 5 1) 110]).
Proof.
  apply (edits_preserve_validity session_a_selected).
  exact session_a_selected_valid.
Defined.

(** C5, as stated, fails: the update operation applies a patch that sets
    [duration = -1] to a valid cue, and the cue then has a negative
    duration. *)
Lemma handleUpdateCue_sets_negative_duration :
  validState session_a
  /\ cues (handleUpdateCue "a" (set_duration (-1) noUpdates) session_a)
     = [StaticHapticCue (mkBase "a" 5 (-1) 0) st_pulse (mkStaticProps 0.8 0.5)]
  /\ ~ validState
       (handleUpdateCue "a" (set_duration (-1) noUpdates) session_a).
Proof.
  assert (Ha : validCue cue_a) by (unfold validCue, duration, startTime, cue_a; simpl; lra).
  split; [| split].
  - split; [intros c [<- | []]; exact Ha | discriminate].
  - reflexivity.
  - intros [Hcues _].
    destruct (Hcues (StaticHapticCue (mkBase "a" 5 (-1) 0) st_pulse
                       (mkStaticProps 0.8 0.5))) as [Hd _].
    + left; reflexivity.
    + unfold duration in Hd; simpl in Hd; lra.
Qed.

(** ** Track assignment on insertion *)

Lemma hasConflict_occupied (cues : list HapticCue) (t : R) (k : Z) :
  hasConflict cues t k = true <-> occupied cues t k.
Proof.
  unfold hasConflict, occupied. rewrite existsb_exists. split.
  - intros (c & Hin & Hc). exists c.
    apply andb_prop in Hc as [Hc H3]. apply andb_prop in Hc as [H1 H2].
    apply bool_decide_eq_true in H1, H2, H3.
    repeat split; auto; lra.
  - intros (c & Hin & H1 & H2 & H3). exists c. split; [exact Hin |].
    rewrite !andb_true_iff, !bool_decide_eq_true.
    repeat split; auto; lra.
Qed.

Lemma hasConflict_free (cues : list HapticCue) (t : R) (k : Z) :
  hasConflict cues t k = false <-> ~ occupied cues t k.
Proof.
  rewrite <- hasConflict_occupied. destruct (hasConflict cues t k); split;
    congruence.
Qed.

(** What the loop returns: the first free track of the [n] tracks from
    [start] on, or nothing when all of them are occupied. *)
Lemma scanTracks_spec (cues : list HapticCue) (t : R) (n : nat) (start : Z) :
  match scanTracks cues t start n with
  | Some tr =>
      (start <= tr < start + Z.of_nat n)%Z
      /\ ~ occupied cues t tr
      /\ forall k, (start <= k < tr)%Z -> occupied cues t k
  | None => forall k, (start <= k < start + Z.of_nat n)%Z -> occupied cues t k
  end.
Proof.
  revert start. induction n as [| n IH]; intros start; simpl scanTracks.
  - intros k Hk. lia.
  - destruct (hasConflict cues t start) eqn:Hc.
    + apply hasConflict_occupied in Hc. specialize (IH (start + 1)%Z).
      destruct (scanTracks cues t (start + 1) n) as [tr|].
      * destruct IH as (Hr & Hfree & Hbelow). split; [lia |]. split; [exact Hfree |].
        intros k Hk. destruct (Z.eq_dec k start) as [-> | Hne]; [exact Hc |].
        apply Hbelow. lia.
      * intros k Hk. destruct (Z.eq_dec k start) as [-> | Hne]; [exact Hc |].
        apply IH. lia.
    + apply hasConflict_free in Hc. split; [lia |]. split; [exact Hc |].
      intros k Hk. lia.
Qed.

Lemma track_newCue now ty t tr : track (newCue now ty t tr) = tr.
Proof. destruct ty; reflexivity. Qed.

(** C6: an insertion without a target track appends one cue whose track is
    the first of the tracks 0..7 that is not occupied at the start instant
    (no cue of that track has the instant in its closed interval
    [[startTime, startTime + duration]]), and track 0 when all eight are
    occupied.  In particular, when track 0 is occupied at the instant and
    track 1 is not, the cue lands on track 1. *)
Theorem insertion_track (now : string) (ty : CueType) (t : R)
  (st : EditorState) :
  let tr := findAvailableTrack (cues st) t 0 in
  cues (handleAddCue now ty t None st) = cues st ++ [newCue now ty t tr]
  /\ track (newCue now ty t tr) = tr
  /\ ((0 <= tr < 8)%Z
      /\ ~ occupied (cues st) t tr
      /\ (forall k, (0 <= k < tr)%Z -> occupied (cues st) t k)
      \/ (forall k, (0 <= k < 8)%Z -> occupied (cues st) t k) /\ tr = 0%Z)
  /\ (occupied (cues st) t 0 -> ~ occupied (cues st) t 1 -> tr = 1%Z).
Proof.
  intros tr. split; [reflexivity |]. split; [apply track_newCue |].
  assert (Hspec :
    (0 <= tr < 8)%Z
    /\ ~ occupied (cues st) t tr
    /\ (forall k, (0 <= k < tr)%Z -> occupied (cues st) t k)
    \/ (forall k, (0 <= k < 8)%Z -> occupied (cues st) t k) /\ tr = 0%Z).
  { unfold tr, findAvailableTrack.
    pose proof (scanTracks_spec (cues st) t (Z.to_nat (8 - 0)) 0) as H.
    destruct (scanTracks (cues st) t 0 (Z.to_nat (8 - 0))) as [r|]; simpl.
    - left. destruct H as (Hr & Hfree & Hbelow). repeat split; auto; lia.
    - right. split; [| reflexivity]. intros k Hk. apply H. lia. }
  split; [exact Hspec |].
  intros H0 H1. destruct Hspec as [(Hr & Hfree & Hbelow) | [Hall _]].
  - destruct (Z.eq_dec tr 0%Z) as [E | E]; [rewrite E in Hfree; contradiction |].
    destruct (Z.eq_dec tr 1%Z) as [E1 | E1]; [exact E1 |].
    exfalso. apply H1, Hbelow. lia.
  - exfalso. apply H1, Hall. lia.
Qed.

(** The scenario of C6: with cues on track 0 covering [0, 1) and [1, 2), a
    cue inserted at 0.5 without a target track lands on track 1. *)
Lemma insertion_track_scenario :
  cues (handleAddCue "n" pulse 0.5 None session_two)
  = [cue_first; cue_second; newCue "n" pulse 0.5 1]
  /\ track (newCue "n" pulse 0.5 1) = 1%Z.
Proof.
  destruct (insertion_track "n" pulse 0.5 session_two)
    as (Heq & Htr & _ & Hone).
  rewrite Hone in Heq, Htr.
  - split; [exact Heq | exact Htr].
  - exists cue_first. split; [left; reflexivity |].
    unfold track, startTime, duration, cue_first; simpl.
    split; [reflexivity | lra].
  - intros (c & Hin & Htr' & _).
    destruct Hin as [<- | [<- | []]]; discriminate Htr'.
  - exists cue_first. split; [left; reflexivity |].
    unfold track, startTime, duration, cue_first; simpl.
    split; [reflexivity | lra].
  - intros (c & Hin & Htr' & _).
    destruct Hin as [<- | [<- | []]]; discriminate Htr'.
Defined.

(** ** Deleting the multi-selection *)

Section Filter.

Context {A : Type} (P : A -> Prop) `{!forall a, Decision (P a)}.

Lemma filter_keeps_all (l : list A) : (forall a, P a) -> filter P l = l.
Proof.
  intros HP. induction l as [| a l IH]; [reflexivity |].
  rewrite filter_cons_True by apply HP. now rewrite IH.
Qed.

Lemma filter_drops_all (l : list A) : (forall a, ~ P a) -> filter P l = [].
Proof.
  intros HP. induction l as [| a l IH]; [reflexivity |].
  rewrite filter_cons_False by apply HP. exact IH.
Qed.

End Filter.

(** C10: deleting the multi-selection keeps, in their order and unchanged,
    exactly the cues whose id is not selected: the cues left are a
    subsequence of the cues before, a cue is left if and only if it was there
    and its id is not selected, and the unselected cues read in order are the
    same list before and after.  With an empty selection the whole session
    (cue list, primary selection, selection set) is as before; otherwise the
    primary selection and the selection set are cleared. *)
Theorem deleteSelected_frame (st : EditorState) :
  let ids := selectedCueIds (selectionState st) in
  let st' := handleDeleteSelectedCues st in
  (forall c, c ∈ cues st' <-> c ∈ cues st /\ id c ∉ ids)
  /\ sublist (cues st') (cues st)
  /\ filter (fun c => id c ∉ ids) (cues st')
     = filter (fun c => id c ∉ ids) (cues st)
  /\ filter (fun c => id c ∈ ids) (cues st') = []
  /\ (ids = ∅ -> st' = st)
  /\ (ids <> ∅ ->
      selectedCue st' = None
      /\ selectionState st'
         = mkSelection ∅ (marqueeSelection (selectionState st))).
Proof.
  intros ids st'.
  assert (Hcues : cues st' = filter (fun c => id c ∉ ids) (cues st)).
  { unfold st', handleDeleteSelectedCues. fold ids. case_decide as Hsize.
    - apply size_empty_inv in Hsize. apply leibniz_equiv in Hsize.
      symmetry. apply filter_keeps_all. rewrite Hsize. set_solver.
    - reflexivity. }
  rewrite Hcues. split; [| split; [| split; [| split; [| split]]]].
  - intros c. rewrite list_elem_of_filter. tauto.
  - apply sublist_filter.
  - rewrite list_filter_filter. apply list_filter_iff. tauto.
  - rewrite list_filter_filter. apply filter_drops_all. tauto.
  - intros Hempty. unfold st', handleDeleteSelectedCues. fold ids.
    rewrite Hempty, size_empty. case_decide; [reflexivity | congruence].
  - intros Hne. unfold st', handleDeleteSelectedCues. fold ids.
    case_decide as Hsize; [| split; reflexivity].
    apply size_empty_inv, leibniz_equiv in Hsize. contradiction.
Qed.

(** ** Waveform synthesis *)

Lemma sampleCountOf_range (d z : R) : (32 <= sampleCountOf d z <= 512)%Z.
Proof. unfold sampleCountOf. lia. Qed.

Lemma length_sampleLoop (n : Z) (body : nat -> WaveformPoint) :
  length (sampleLoop n body) = Z.to_nat n.
Proof. unfold sampleLoop. now rewrite length_map, length_seq. Qed.

Lemma lookup_sampleLoop (n : Z) (body : nat -> WaveformPoint) (i : nat)
  (p : WaveformPoint) :
  sampleLoop n body !! i = Some p <-> (i < Z.to_nat n)%nat /\ p = body i.
Proof.
  unfold sampleLoop. change (List.map body) with (fmap (M:=list) body).
  rewrite list_lookup_fmap. split.
  - intros H. apply fmap_Some in H as (k & Hk & ->).
    apply lookup_seq in Hk as [-> Hlt]. auto.
  - intros [Hlt ->]. rewrite lookup_seq_lt by exact Hlt. reflexivity.
Qed.

(** Every family builds its points by the same loop, and sets [x] to
    [(i / (sampleCount - 1)) * width]. *)
Lemma generateWaveformData_points (rnd : Math.random_source) (cue : HapticCue)
  (width height zoomLevel : R) :
  exists body,
    points (generateWaveformData rnd cue width height zoomLevel)
    = sampleLoop (sampleCountOf (duration cue) zoomLevel) body
    /\ forall i,
         x (body i)
         = progress (sampleCountOf (duration cue) zoomLevel) i * width.
Proof.
  unfold generateWaveformData.
  destruct cue as [b t p | b t p]; destruct t; cbv zeta; simpl type;
    cbv iota; eexists; (split; [reflexivity | intros i; reflexivity]).
Qed.

Lemma progress_first (n : Z) : progress n 0 = 0.
Proof. unfold progress. simpl INR. lra. Qed.

Lemma progress_last (n : Z) :
  (2 <= n)%Z -> progress n (Z.to_nat n - 1) = 1.
Proof.
  intros Hn. unfold progress.
  rewrite minus_INR by lia. rewrite INR_IZR_INZ, Z2Nat.id by lia.
  simpl INR. apply IZR_le in Hn. field. lra.
Qed.

Lemma progress_mono (n : Z) (i j : nat) :
  (2 <= n)%Z -> (i <= j)%nat -> progress n i <= progress n j.
Proof.
  intros Hn Hij. unfold progress. apply IZR_le in Hn. apply le_INR in Hij.
  apply Rmult_le_compat_r; [| exact Hij].
  left. apply Rinv_0_lt_compat. lra.
Qed.

(** C1: for positive width, height and zoom level, the number of points is
    [max(32, min(512, floor(duration * 60 * sqrt(zoomLevel))))], so between
    32 and 512; the [x] coordinates do not decrease along the sequence; the
    first point has [x = 0] and the last has [x = width]. *)
Theorem waveform_points_shape (rnd : Math.random_source) (cue : HapticCue)
  (width height zoomLevel : R) :
  0 < width -> 0 < height -> 0 < zoomLevel ->
  let pts := points (generateWaveformData rnd cue width height zoomLevel) in
  Z.of_nat (length pts)
  = Z.max 32
      (Z.min 512 (Math.floor (duration cue * 60 * Math.sqrt zoomLevel)))
  /\ (32 <= length pts <= 512)%nat
  /\ (forall i j p q,
        (i <= j)%nat -> pts !! i = Some p -> pts !! j = Some q -> x p <= x q)
  /\ x <$> head pts = Some 0
  /\ x <$> last pts = Some width.
Proof.
  intros Hw Hh Hz pts.
  destruct (generateWaveformData_points rnd cue width height zoomLevel)
    as (body & Hpts & Hx).
  fold pts in Hpts.
  pose proof (sampleCountOf_range (duration cue) zoomLevel) as Hn.
  set (n := sampleCountOf (duration cue) zoomLevel) in *.
  assert (Hlen : length pts = Z.to_nat n)
    by (rewrite Hpts; apply length_sampleLoop).
  split; [| split; [| split; [| split]]].
  - rewrite Hlen, Z2Nat.id by lia. reflexivity.
  - rewrite Hlen. lia.
  - intros i j p q Hij Hp Hq. rewrite Hpts in Hp, Hq.
    apply lookup_sampleLoop in Hp as [_ ->], Hq as [_ ->].
    rewrite !Hx. apply Rmult_le_compat_r; [lra |].
    apply progress_mono; [lia | exact Hij].
  - rewrite head_lookup.
    assert (H0 : pts !! 0%nat = Some (body 0%nat))
      by (rewrite Hpts; apply lookup_sampleLoop; split; [lia | reflexivity]).
    rewrite H0. simpl. rewrite Hx, progress_first. f_equal. lra.
  - rewrite last_lookup, Hlen.
    assert (Hl : pts !! pred (Z.to_nat n) = Some (body (Z.to_nat n - 1)%nat)).
    { rewrite Hpts. apply lookup_sampleLoop. split; [lia | f_equal; lia]. }
    rewrite Hl. simpl. rewrite Hx, progress_last by lia. f_equal. lra.
Qed.

Lemma waveform_points_shape_witness :
  let pts := points (generateWaveformData draws_zero cue_pulse 100 32 1) in
  Z.of_nat (length pts)
  = Z.max 32
      (Z.min 512 (Math.floor (duration cue_pulse * 60 * Math.sqrt 1)))
  /\ (32 <= length pts <= 512)%nat
  /\ (forall i j p q,
        (i <= j)%nat -> pts !! i = Some p -> pts !! j = Some q -> x p <= x q)
  /\ x <$> head pts = Some 0
  /\ x <$> last pts = Some 100.
Proof.
  apply (waveform_points_shape draws_zero cue_pulse 100 32 1); lra.
Defined.

Lemma floor_unique (a : R) (k : Z) :
  IZR k <= a < IZR k + 1 -> Math.floor a = k.
Proof.
  intros [Hlo Hhi]. unfold Math.floor. symmetry. apply Int_part_spec. lra.
Qed.

Lemma rem1_small (a : R) : 0 <= a < 1 -> rem1 a = a.
Proof.
  intros [Hlo Hhi]. unfold rem1, trunc.
  destruct (decide (0 <= a)) as [_ | Hn]; [| contradiction].
  change (Int_part a) with (Math.floor a).
  rewrite (floor_unique a 0) by (simpl; lra). simpl. lra.
Qed.

Lemma sampleCountOf_pulse : sampleCountOf (duration cue_pulse) 1 = 32%Z.
Proof.
  unfold sampleCountOf, Math.sqrt. rewrite sqrt_1.
  rewrite (floor_unique _ 30);
    [reflexivity | unfold duration, baseSampleRate, cue_pulse; simpl; lra].
Qed.

Lemma pulse_cue_inv (cue : HapticCue) :
  type cue = pulse -> exists b p, cue = StaticHapticCue b st_pulse p.
Proof.
  destruct cue as [b t p | b t p]; destruct t; try discriminate.
  intros _. now exists b, p.
Qed.

(** C9: in the OFF phase of a pulse cue (the phase of the sample within its
    duty cycle is not below the duty cycle) the sample has
    [y = centerY - 0.05 * amplitude] with [amplitude = intensity * 0.4 *
    height]: for a positive intensity (and height) it lies above the center
    line, at 5% of the amplitude, and does not return to it. *)
Theorem pulse_off_phase_baseline (rnd : Math.random_source)
  (cue : HapticCue) (width height zoomLevel : R) (i : nat)
  (pt : WaveformPoint) :
  type cue = pulse ->
  points (generateWaveformData rnd cue width height zoomLevel) !! i = Some pt ->
  dutyCycle cue
  <= pulsePhase cue (sampleCountOf (duration cue) zoomLevel) i ->
  let centerY := height / 2 in
  let amplitude := scalarIntensity cue * 0.4 * height in
  y pt = centerY - 0.05 * amplitude
  /\ (0 < scalarIntensity cue -> 0 < height ->
      y pt < centerY /\ centerY - y pt = 0.05 * amplitude).
Proof.
  intros Hty Hpt Hoff centerY amplitude.
  destruct (pulse_cue_inv cue Hty) as (b & p & ->).
  unfold generateWaveformData in Hpt. simpl type in Hpt. cbv iota zeta in Hpt.
  unfold generateAccuratePulseWave, result in Hpt. simpl points in Hpt.
  apply lookup_sampleLoop in Hpt as [_ ->].
  assert (Hy : y (pulsePoint (StaticHapticCue b st_pulse p) width height
                    (sampleCountOf
                       (duration (StaticHapticCue b st_pulse p)) zoomLevel) i)
               = centerY - 0.05 * amplitude).
  { unfold pulsePoint. cbv zeta. simpl y.
    destruct (decide (pulsePhase (StaticHapticCue b st_pulse p)
                        (sampleCountOf
                           (duration (StaticHapticCue b st_pulse p)) zoomLevel)
                        i
                      < dutyCycle (StaticHapticCue b st_pulse p)))
      as [Hon | _]; [lra |].
    unfold centerY, amplitude, scalarIntensity. lra. }
  split; [exact Hy |].
  intros Hi Hh. rewrite Hy.
  assert (0 < amplitude) by (unfold amplitude; nra).
  split; lra.
Qed.

Lemma pulse_off_phase_baseline_witness :
  let pt := pulsePoint cue_pulse 100 32 32 6 in
  y pt = 32 / 2 - 0.05 * (scalarIntensity cue_pulse * 0.4 * 32)
  /\ (0 < scalarIntensity cue_pulse -> 0 < 32 ->
      y pt < 32 / 2
      /\ 32 / 2 - y pt = 0.05 * (scalarIntensity cue_pulse * 0.4 * 32)).
Proof.
  apply (pulse_off_phase_baseline draws_zero cue_pulse 100 32 1 6).
  - reflexivity.
  - unfold generateWaveformData. simpl type. cbv iota zeta.
    unfold generateAccuratePulseWave, result. simpl points.
    rewrite sampleCountOf_pulse. apply lookup_sampleLoop.
    split; [simpl; lia | reflexivity].
  - rewrite sampleCountOf_pulse. unfold pulsePhase.
    rewrite rem1_small;
      unfold progress, totalPulses, pulsesPerSecond, dutyCycle, duration,
        cue_pulse; simpl; lra.
Defined.

(** *** Ramp *)

Lemma ramp_cue_inv (cue : HapticCue) :
  type cue = ramp_down -> exists b p, cue = RampHapticCue b rt_ramp_down p.
Proof.
  destruct cue as [b t p | b t p]; destruct t; try discriminate.
  intros _. now exists b, p.
Qed.

Lemma rampPoint_y (width height : R) (n : Z) (ty : RampCueType)
  (p : RampCueProperties) (i : nat) :
  y (rampPoint width height n ty p i)
  = rampY height p (progress n i) (rampValue ty p (progress n i)).
Proof. reflexivity. Qed.

(** C7, as the code has it: for a ramp-down cue the sample at progress [t]
    is built from the base value [1 - shape(t)], where [shape] is the
    sharpness-dependent curve taken at [t] itself and at the sharpness
    interpolated at [t]; the curve value is inverted after the shaping, the
    progress is not.  Intensity and sharpness are interpolated at [t]. *)
Theorem ramp_down_inverts_value (rnd : Math.random_source) (cue : HapticCue)
  (p : RampCueProperties) (b : BaseCue) (width height zoomLevel : R)
  (i : nat) (pt : WaveformPoint) :
  cue = RampHapticCue b rt_ramp_down p ->
  points (generateWaveformData rnd cue width height zoomLevel) !! i = Some pt ->
  let t := progress (sampleCountOf (duration cue) zoomLevel) i in
  x pt = t * width
  /\ y pt = rampY height p t (1 - rampCurve t (currentSharpness p t))
  /\ currentSharpness p t
     = sharpness_start p + (sharpness_end p - sharpness_start p) * t
  /\ currentIntensity p t
     = intensity_start p + (intensity_end p - intensity_start p) * t.
Proof.
  intros -> Hpt t.
  unfold generateWaveformData in Hpt. simpl type in Hpt. cbv iota zeta in Hpt.
  unfold generateAccurateRampWave, result in Hpt. simpl points in Hpt.
  apply lookup_sampleLoop in Hpt as [_ ->].
  split; [reflexivity |]. split; [| split; reflexivity].
  rewrite rampPoint_y. reflexivity.
Qed.

Lemma sampleCountOf_ramp_sharp :
  sampleCountOf (duration cue_ramp_sharp) 1 = 33%Z.
Proof.
  unfold sampleCountOf, Math.sqrt. rewrite sqrt_1.
  rewrite (floor_unique _ 33);
    [reflexivity | unfold duration, baseSampleRate, cue_ramp_sharp; simpl; lra].
Qed.

Lemma progress_33_8 : progress 33 8 = 1 / 4.
Proof. unfold progress. simpl INR. lra. Qed.

Lemma lookup_ramp_sharp_8 :
  points (generateWaveformData draws_zero cue_ramp_sharp 100 32 1) !! 8%nat
  = Some (rampPoint 100 32 33 rt_ramp_down ramp_sharp 8).
Proof.
  unfold generateWaveformData. simpl type. cbv iota zeta.
  unfold generateAccurateRampWave, result. simpl points.
  rewrite sampleCountOf_ramp_sharp. apply lookup_sampleLoop.
  split; [simpl; lia | reflexivity].
Qed.

Lemma ramp_down_inverts_value_witness :
  let pt := rampPoint 100 32 33 rt_ramp_down ramp_sharp 8 in
  let t := progress (sampleCountOf (duration cue_ramp_sharp) 1) 8 in
  x pt = t * 100
  /\ y pt
     = rampY 32 ramp_sharp t (1 - rampCurve t (currentSharpness ramp_sharp t))
  /\ currentSharpness ramp_sharp t
     = sharpness_start ramp_sharp
       + (sharpness_end ramp_sharp - sharpness_start ramp_sharp) * t
  /\ currentIntensity ramp_sharp t
     = intensity_start ramp_sharp
       + (intensity_end ramp_sharp - intensity_start ramp_sharp) * t.
Proof.
  apply (ramp_down_inverts_value draws_zero cue_ramp_sharp ramp_sharp
           (mkBase "r" 0 0.55 0) 100 32 1 8).
  - reflexivity.
  - exact lookup_ramp_sharp_8.
Defined.

Lemma pow_half (a : R) : 0 < a -> Math.pow a 0.5 = sqrt a.
Proof.
  intros Ha. unfold Math.pow.
  destruct (decide (a = 0)) as [E | _]; [lra |].
  replace 0.5 with (/ 2) by lra. now apply Rpower_sqrt.
Qed.

Lemma sqrt_quarter : sqrt (1 / 4) = 1 / 2.
Proof. apply sqrt_lem_1; lra. Qed.

Lemma sqrt_three_quarters : sqrt (3 / 4) <> 1 / 2.
Proof.
  intros E. pose proof (sqrt_sqrt (3 / 4)) as H. rewrite E in H. lra.
Qed.

Lemma currentSharpness_ramp_sharp (t : R) : currentSharpness ramp_sharp t = 1.
Proof. unfold currentSharpness, ramp_sharp; simpl. lra. Qed.

Lemma rampCurve_sharp (t : R) : 0 < t -> rampCurve t 1 = sqrt t.
Proof.
  intros Ht. unfold rampCurve.
  destruct (decide (1 > 0.5)) as [_ | H]; [| lra].
  cbv zeta. replace (1 - (1 - 0.5) * 2 * 0.5) with 0.5 by lra.
  now apply pow_half.
Qed.

(** C7, as stated, fails: for the ramp-down cue [cue_ramp_sharp] (sharpness
    1 throughout, 33 samples) sample 8 is at progress [t = 1/4]; its base
    value is [1 - shape(1/4) = 1/2], whereas the shaping taken at the
    inverted progress gives [shape(3/4) = sqrt(3/4)], and the [y] of the
    point differs from the [y] that value would give. *)
Lemma ramp_down_is_not_progress_inversion :
  exists pt,
    points (generateWaveformData draws_zero cue_ramp_sharp 100 32 1) !! 8%nat
    = Some pt
    /\ progress (sampleCountOf (duration cue_ramp_sharp) 1) 8 = 1 / 4
    /\ rampValue rt_ramp_down ramp_sharp (1 / 4) = 1 / 2
    /\ rampCurve (1 - 1 / 4) (currentSharpness ramp_sharp (1 / 4)) <> 1 / 2
    /\ y pt
       <> rampY 32 ramp_sharp (1 / 4)
            (rampCurve (1 - 1 / 4) (currentSharpness ramp_sharp (1 / 4))).
Proof.
  exists (rampPoint 100 32 33 rt_ramp_down ramp_sharp 8).
  assert (Hval : rampValue rt_ramp_down ramp_sharp (1 / 4) = 1 / 2).
  { unfold rampValue. cbv zeta. rewrite currentSharpness_ramp_sharp.
    rewrite rampCurve_sharp by lra. rewrite sqrt_quarter. lra. }
  assert (Hinv : rampCurve (1 - 1 / 4) (currentSharpness ramp_sharp (1 / 4))
                 <> 1 / 2).
  { rewrite currentSharpness_ramp_sharp, rampCurve_sharp by lra.
    replace (1 - 1 / 4) with (3 / 4) by lra. exact sqrt_three_quarters. }
  split; [exact lookup_ramp_sharp_8 |].
  split; [rewrite sampleCountOf_ramp_sharp; exact progress_33_8 |].
  split; [exact Hval |]. split; [exact Hinv |].
  rewrite rampPoint_y, progress_33_8, Hval.
  intros E. apply Hinv. unfold rampY in E. cbv zeta in E.
  unfold currentIntensity, ramp_sharp in E. simpl in E.
  set (m := Math.sin _) in E.
  set (r := rampCurve _ _) in *.
  lra.
Qed.

(** *** Determinism *)

Lemma rumblePoint_y_diff (cue : HapticCue) (width height : R) (n : Z)
  (rnd1 rnd2 : Math.random_source) (f : R) (i : nat) :
  y (rumblePoint cue width height n rnd2 f i)
  - y (rumblePoint cue width height n rnd1 f i)
  = (rnd1 i - rnd2 i) * 0.05 * scalarIntensity cue
    * (scalarIntensity cue * (height * 0.4)).
Proof. unfold rumblePoint. cbv zeta. simpl y. ring. Qed.

Lemma rumble_draws_matter (cue : HapticCue) (width height : R) (n : Z)
  (rnd1 rnd2 : Math.random_source) (f : R) (i : nat) :
  scalarIntensity cue <> 0 -> height <> 0 ->
  (i < Z.to_nat n)%nat -> rnd1 i <> rnd2 i ->
  generateAccurateRumbleWave cue width height n (getWaveformColor (type cue))
    rnd1 f
  <> generateAccurateRumbleWave cue width height n (getWaveformColor (type cue))
       rnd2 f.
Proof.
  intros Hi Hh Hlt Hrnd E.
  apply (f_equal points) in E. unfold generateAccurateRumbleWave, result in E.
  simpl points in E.
  assert (E1 : sampleLoop n (rumblePoint cue width height n rnd1 f) !! i
               = Some (rumblePoint cue width height n rnd1 f i))
    by (apply lookup_sampleLoop; auto).
  rewrite E in E1. apply lookup_sampleLoop in E1 as [_ E1].
  pose proof (rumblePoint_y_diff cue width height n rnd1 rnd2 f i) as D.
  rewrite E1 in D.
  assert (Hz : (rnd1 i - rnd2 i) * 0.05 * scalarIntensity cue
               * (scalarIntensity cue * (height * 0.4)) = 0) by lra.
  assert (Hp : (rnd1 i - rnd2 i)
               * (scalarIntensity cue * (scalarIntensity cue * height)) = 0)
    by lra.
  apply Rmult_integral in Hp as [Hp | Hp]; [lra |].
  apply Rmult_integral in Hp as [Hp | Hp]; [contradiction |].
  apply Rmult_integral in Hp as [Hp | Hp]; contradiction.
Qed.

(** C8: for a cue that is neither a low nor a high rumble the synthesis does
    not read the random source, so two calls with equal arguments return the
    same waveform whatever the draws; a rumble cue of non-zero intensity (and
    height) gets two different waveforms as soon as one of the draws made for
    its samples differs. *)
Theorem synthesis_deterministic_but_rumble (cue : HapticCue)
  (width height zoomLevel : R) (rnd1 rnd2 : Math.random_source) :
  (type cue <> rumble_low -> type cue <> rumble_high ->
   generateWaveformData rnd1 cue width height zoomLevel
   = generateWaveformData rnd2 cue width height zoomLevel)
  /\ (type cue = rumble_low \/ type cue = rumble_high ->
      scalarIntensity cue <> 0 -> height <> 0 ->
      forall i,
        (i < Z.to_nat (sampleCountOf (duration cue) zoomLevel))%nat ->
        rnd1 i <> rnd2 i ->
        generateWaveformData rnd1 cue width height zoomLevel
        <> generateWaveformData rnd2 cue width height zoomLevel).
Proof.
  split.
  - intros Hlow Hhigh. unfold generateWaveformData.
    destruct (type cue); try reflexivity; congruence.
  - intros Hty Hi Hh i Hlt Hrnd. unfold generateWaveformData. cbv zeta.
    destruct Hty as [Hty | Hty]; rewrite Hty;
      rewrite <- Hty; apply (rumble_draws_matter _ _ _ _ _ _ _ i); auto.
Qed.

Lemma synthesis_deterministic_but_rumble_witness :
  generateWaveformData draws_zero cue_pulse 100 32 1
  = generateWaveformData draws_half cue_pulse 100 32 1
  /\ generateWaveformData draws_zero cue_rumble 100 32 1
     <> generateWaveformData draws_half cue_rumble 100 32 1.
Proof.
  split.
  - apply (synthesis_deterministic_but_rumble cue_pulse 100 32 1
             draws_zero draws_half); discriminate.
  - apply (proj2 (synthesis_deterministic_but_rumble cue_rumble 100 32 1
                    draws_zero draws_half)) with (i := 0%nat).
    + left; reflexivity.
    + unfold scalarIntensity, cue_rumble; simpl; lra.
    + lra.
    + pose proof (sampleCountOf_range (duration cue_rumble) 1). lia.
    + unfold draws_zero, draws_half; lra.
Defined.

(** * Further properties of the code *)

(** ** Zoom and pan *)

Lemma clamp_window (a b : R) :
  0 <= Math.max 0 (Math.min a b) /\ Math.max 0 (Math.min a b) <= Math.max 0 a.
Proof. minmax; lra. Qed.

(** X1: zooming in and zooming out put the window inside the timeline from
    any view: afterwards [viewStartTime] is at least 0 and at most
    [max(0, duration - visibleDuration)], so it is 0 when the window is
    longer than the timeline.  The playhead effect does the same whenever it
    moves the window, that is when the playhead is outside it; otherwise it
    leaves the view as it is.  So the effect keeps a window that is inside
    the timeline inside it, but does not repair one that is not while the
    playhead is in it. *)
Theorem zoom_keeps_window_in_timeline (v : TimelineView) (currentTime : R) :
  windowInTimeline (handleZoomIn v)
  /\ windowInTimeline (handleZoomOut currentTime v)
  /\ (currentTime < viewStartTime v
      \/ currentTime > viewStartTime v + visibleDuration v ->
      windowInTimeline (adjustView currentTime v))
  /\ (viewStartTime v <= currentTime <= viewStartTime v + visibleDuration v ->
      adjustView currentTime v = v)
  /\ (windowInTimeline v -> windowInTimeline (adjustView currentTime v)).
Proof.
  assert (Hfires : currentTime < viewStartTime v
                   \/ currentTime > viewStartTime v + visibleDuration v ->
                   windowInTimeline (adjustView currentTime v)).
  { intros Hout. unfold adjustView. rewrite decide_True by exact Hout.
    unfold windowInTimeline, visibleDuration; simpl. apply clamp_window. }
  assert (Hstays : viewStartTime v <= currentTime
                   <= viewStartTime v + visibleDuration v ->
                   adjustView currentTime v = v).
  { intros Hin. unfold adjustView. rewrite decide_False; [reflexivity | lra]. }
  split; [| split; [| split; [| split]]].
  - unfold windowInTimeline, handleZoomIn, visibleDuration; simpl.
    apply clamp_window.
  - unfold windowInTimeline, handleZoomOut.
    case_decide as Hlong; unfold visibleDuration; simpl.
    + split; [lra | apply max_lower].
    + apply clamp_window.
  - exact Hfires.
  - exact Hstays.
  - intros Hv.
    destruct (decide (currentTime < viewStartTime v
                      \/ currentTime > viewStartTime v + visibleDuration v))
      as [Hout | Hin].
    + now apply Hfires.
    + rewrite Hstays; [exact Hv | lra].
Qed.

(** The effect does not repair a window that starts before 0 while the
    playhead is inside it. *)
Example adjustView_keeps_negative_start :
  viewStartTime (adjustView 0 (mkView 60 1 (-5) (Some 600))) = -5.
Proof.
  unfold adjustView. rewrite decide_False; [reflexivity |].
  unfold visibleDuration; simpl. lra.
Qed.

(** X2: the zoom level stays in [[0.25, 16]]; zooming in doubles it up to
    16 and zooming out halves it down to 0.25, so from a level of at most 8
    a zoom-in followed by a zoom-out gives the level back, and from a level
    of at least 0.5 so does a zoom-out followed by a zoom-in. *)
Theorem zoom_level_range (v : TimelineView) (c1 c2 : R) :
  0.25 <= zoomLevel v <= 16 ->
  0.25 <= zoomLevel (handleZoomIn v) <= 16
  /\ 0.25 <= zoomLevel (handleZoomOut c1 v) <= 16
  /\ (zoomLevel v <= 8 ->
      zoomLevel (handleZoomIn v) = 2 * zoomLevel v
      /\ zoomLevel (handleZoomOut c1 (handleZoomIn v)) = zoomLevel v)
  /\ (0.5 <= zoomLevel v ->
      zoomLevel (handleZoomOut c1 v) = zoomLevel v / 2
      /\ zoomLevel (handleZoomIn (handleZoomOut c2 v)) = zoomLevel v).
Proof.
  intros Hz.
  assert (Hin : forall u,
             zoomLevel (handleZoomIn u) = Math.min (zoomLevel u * 2) 16)
    by reflexivity.
  assert (Hout : forall c u,
             zoomLevel (handleZoomOut c u) = Math.max (zoomLevel u / 2) 0.25).
  { intros c u. unfold handleZoomOut. case_decide; reflexivity. }
  repeat (rewrite Hout || rewrite Hin). clear Hin Hout.
  repeat split; intros; minmax; lra.
Qed.

Lemma zoom_level_range_witness :
  0.25 <= zoomLevel (handleZoomIn view_zoomed) <= 16
  /\ 0.25 <= zoomLevel (handleZoomOut 20 view_zoomed) <= 16
  /\ (zoomLevel view_zoomed <= 8 ->
      zoomLevel (handleZoomIn view_zoomed) = 2 * zoomLevel view_zoomed
      /\ zoomLevel (handleZoomOut 20 (handleZoomIn view_zoomed))
         = zoomLevel view_zoomed)
  /\ (0.5 <= zoomLevel view_zoomed ->
      zoomLevel (handleZoomOut 20 view_zoomed) = zoomLevel view_zoomed / 2
      /\ zoomLevel (handleZoomIn (handleZoomOut 30 view_zoomed))
         = zoomLevel view_zoomed).
Proof.
  apply (zoom_level_range view_zoomed 20 30).
  unfold view_zoomed; simpl; lra.
Defined.

Lemma visibleDuration_nonneg (v : TimelineView) :
  0 <= totalDuration v -> 0 < zoomLevel v -> 0 <= visibleDuration v.
Proof.
  intros Hd Hz. unfold visibleDuration.
  apply Rmult_le_pos; [exact Hd |]. left. now apply Rinv_0_lt_compat.
Qed.

(** X3: once the playhead effect has run, a playhead inside the timeline is
    inside the window, and running the effect again changes nothing. *)
Theorem adjustView_shows_playhead (v : TimelineView) (currentTime : R) :
  0 <= totalDuration v ->
  0 < zoomLevel v ->
  0 <= currentTime <= totalDuration v ->
  let v' := adjustView currentTime v in
  viewStartTime v' <= currentTime <= viewStartTime v' + visibleDuration v'
  /\ adjustView currentTime v' = v'.
Proof.
  intros Hd Hz Hc v'.
  pose proof (visibleDuration_nonneg v Hd Hz) as HV.
  assert (HV' : visibleDuration v' = visibleDuration v)
    by (unfold v', adjustView; case_decide; reflexivity).
  assert (Hin : viewStartTime v' <= currentTime
                <= viewStartTime v' + visibleDuration v').
  { rewrite HV'. unfold v', adjustView. case_decide as Hout.
    - simpl viewStartTime.
      set (V := visibleDuration v) in *. minmax; lra.
    - lra. }
  split; [exact Hin |].
  unfold adjustView at 1. case_decide as Hout; [lra | reflexivity].
Qed.

Lemma adjustView_shows_playhead_witness :
  let v' := adjustView 50 view_zoomed in
  viewStartTime v' <= 50 <= viewStartTime v' + visibleDuration v'
  /\ adjustView 50 v' = v'.
Proof.
  apply (adjustView_shows_playhead view_zoomed 50);
    unfold view_zoomed; simpl; lra.
Defined.

(** X4: a zoom-in that doubles the level halves the visible duration, and
    it keeps the time at the center of the window whenever the halved
    window around that center fits in the timeline. *)
Theorem zoomIn_keeps_center (v : TimelineView) :
  0 < zoomLevel v <= 8 ->
  let center := viewStartTime v + visibleDuration v / 2 in
  let v' := handleZoomIn v in
  visibleDuration v' = visibleDuration v / 2
  /\ (visibleDuration v / 4 <= center
      /\ center <= totalDuration v - visibleDuration v / 4 ->
      viewStartTime v' + visibleDuration v' / 2 = center).
Proof.
  intros Hz center v'.
  assert (Hvis : visibleDuration v' = visibleDuration v / 2).
  { unfold v', handleZoomIn, visibleDuration; simpl.
    replace (Math.min (zoomLevel v * 2) 16) with (zoomLevel v * 2)
      by (minmax; lra).
    field. lra. }
  split; [exact Hvis |].
  intros [Hlo Hhi]. rewrite Hvis.
  unfold v', handleZoomIn. simpl viewStartTime.
  replace (Math.min (zoomLevel v * 2) 16) with (zoomLevel v * 2)
    by (minmax; lra).
  replace (totalDuration v / (zoomLevel v * 2)) with (visibleDuration v / 2)
    by (unfold visibleDuration; field; lra).
  fold center. set (V := visibleDuration v) in *. minmax; lra.
Qed.

Lemma zoomIn_keeps_center_witness :
  let center := viewStartTime view_zoomed + visibleDuration view_zoomed / 2 in
  let v' := handleZoomIn view_zoomed in
  visibleDuration v' = visibleDuration view_zoomed / 2
  /\ (visibleDuration view_zoomed / 4 <= center
      /\ center <= totalDuration view_zoomed - visibleDuration view_zoomed / 4 ->
      viewStartTime v' + visibleDuration v' / 2 = center).
Proof.
  apply (zoomIn_keeps_center view_zoomed).
  unfold view_zoomed; simpl; lra.
Defined.

(** ** Scrubbing *)

(** X5: a scrub never seeks outside [[0, duration]], and scrubbing at the
    pixel of a time of the timeline seeks exactly that time. *)
Theorem scrub_seeks_in_timeline (v : TimelineView) (w x t : R) :
  timelineWidth v = Some w ->
  0 < w ->
  0 < visibleDuration v ->
  0 <= totalDuration v ->
  0 <= scrubTime v x <= totalDuration v
  /\ (0 <= t <= totalDuration v -> scrubTime v (timeToPixel v t) = t).
Proof.
  intros Hw Hpos Hvis Hd. unfold scrubTime. split.
  - minmax; lra.
  - intros Ht.
    assert (Hne : visibleDuration v <> 0) by lra.
    replace (pixelToTime v (timeToPixel v t)) with t.
    + minmax; lra.
    + rewrite (pixelToTime_eq v w Hw Hne), (timeToPixel_eq v w Hw Hne).
      field. lra.
Qed.

Lemma scrub_seeks_in_timeline_witness :
  0 <= scrubTime view_zoomed 900 <= totalDuration view_zoomed
  /\ (0 <= 25 <= totalDuration view_zoomed ->
      scrubTime view_zoomed (timeToPixel view_zoomed 25) = 25).
Proof.
  apply (scrub_seeks_in_timeline view_zoomed 600 900 25);
    [reflexivity | lra | | ]; unfold visibleDuration, view_zoomed; simpl; lra.
Defined.

(** ** More on cue drags *)

Lemma find_id_of_In (cues : list HapticCue) (cue : HapticCue) :
  In cue cues ->
  exists c, List.find (fun c => bool_decide (id c = id cue)) cues = Some c.
Proof.
  intros Hin.
  destruct (List.find (fun c => bool_decide (id c = id cue)) cues) as [c|] eqn:E;
    [now exists c |].
  apply (find_none _ _ E) in Hin. simpl in Hin.
  apply bool_decide_eq_false in Hin. contradiction.
Qed.

(** X6: the patch of a move sets the start time only, to a time that is not
    negative; when the cue is not longer than the timeline its end stays
    within the timeline, and when it is longer the start time is 0. *)
Theorem move_keeps_cue_in_timeline (v : TimelineView) (cues : list HapticCue)
  (dragState : DragState) (clientX : R) (cueId : string) (u : CueUpdates) :
  drag_type dragState = move ->
  handleMouseMove v cues dragState clientX = Some (cueId, u) ->
  exists s,
    u = set_startTime s noUpdates
    /\ 0 <= s
    /\ (drag_startDuration dragState <= totalDuration v ->
        s + drag_startDuration dragState <= totalDuration v)
    /\ (totalDuration v < drag_startDuration dragState -> s = 0).
Proof.
  intros Hty Hcall.
  destruct (List.find (fun c => bool_decide (id c = drag_cueId dragState)) cues)
    as [cue|] eqn:Hfind.
  - rewrite (handleMouseMove_move v cues dragState clientX cue Hfind Hty)
      in Hcall.
    injection Hcall as _ <-. eexists. split; [reflexivity |].
    set (d := pixelToTime v _). minmax; lra.
  - rewrite (handleMouseMove_not_found _ _ _ _ Hfind) in Hcall. discriminate.
Qed.

Lemma handleMouseMove_still_panned :
  handleMouseMove view_zoomed [cue_a] drag_move_a 100
  = Some ("a", set_startTime 15 noUpdates).
Proof.
  rewrite (handleMouseMove_move_panned view_zoomed 600 [cue_a] drag_move_a 100
             cue_a);
    [| reflexivity | unfold visibleDuration; simpl; lra | reflexivity
     | reflexivity].
  unfold visibleDuration, view_zoomed, drag_move_a; simpl.
  do 3 f_equal. minmax; lra.
Qed.

Lemma move_keeps_cue_in_timeline_witness :
  exists s,
    set_startTime 15 noUpdates = set_startTime s noUpdates
    /\ 0 <= s
    /\ (drag_startDuration drag_move_a <= totalDuration view_zoomed ->
        s + drag_startDuration drag_move_a <= totalDuration view_zoomed)
    /\ (totalDuration view_zoomed < drag_startDuration drag_move_a -> s = 0).
Proof.
  apply (move_keeps_cue_in_timeline view_zoomed [cue_a] drag_move_a 100 "a").
  - reflexivity.
  - exact handleMouseMove_still_panned.
Defined.

(** X7: a resize-left patch moves the start and the duration together, so
    that the end of the cue, [startTime + duration], stays where it was when
    the gesture began; a resize-right patch sets the duration only. *)
Theorem resize_keeps_other_edge (v : TimelineView) (cues : list HapticCue)
  (dragState : DragState) (clientX : R) (cueId : string) (u : CueUpdates) :
  handleMouseMove v cues dragState clientX = Some (cueId, u) ->
  (drag_type dragState = resize_left ->
   exists s d,
     u = set_duration d (set_startTime s noUpdates)
     /\ s + d = drag_startTime dragState + drag_startDuration dragState)
  /\ (drag_type dragState = resize_right ->
      exists d, u = set_duration d noUpdates).
Proof.
  intros Hcall.
  destruct (List.find (fun c => bool_decide (id c = drag_cueId dragState)) cues)
    as [cue|] eqn:Hfind.
  - split; intros Hty.
    + rewrite (handleMouseMove_resize_left v cues dragState clientX cue Hfind Hty)
        in Hcall.
      cbv zeta in Hcall. case_decide; [| discriminate].
      injection Hcall as _ <-. do 2 eexists. split; [reflexivity | lra].
    + rewrite (handleMouseMove_resize_right v cues dragState clientX cue Hfind Hty)
        in Hcall.
      cbv zeta in Hcall. case_decide; [| discriminate].
      injection Hcall as _ <-. eexists. reflexivity.
  - rewrite (handleMouseMove_not_found _ _ _ _ Hfind) in Hcall. discriminate.
Qed.

Lemma handleMouseMove_resize_left_eval :
  handleMouseMove view_fit [cue_a] (mkDrag resize_left "a" 100 5 1) 103
  = Some ("a", set_duration 0.7 (set_startTime 5.3 noUpdates)).
Proof.
  rewrite (handleMouseMove_resize_left _ _ _ _ cue_a); [| reflexivity | reflexivity].
  rewrite (pixelToTime_eq view_fit 600);
    [| reflexivity | unfold visibleDuration; simpl; lra].
  cbv zeta. unfold visibleDuration, view_fit; simpl.
  replace (Math.max 0 (5 + (0 + (103 - 100) / 600 * (60 / 1)))) with 5.3
    by (minmax; lra).
  replace (1 - (5.3 - 5)) with 0.7 by lra.
  case_decide; [reflexivity | lra].
Qed.

Lemma resize_keeps_other_edge_witness :
  (resize_left = resize_left ->
   exists s d,
     set_duration 0.7 (set_startTime 5.3 noUpdates)
     = set_duration d (set_startTime s noUpdates)
     /\ s + d = 5 + 1)
  /\ (resize_left = resize_right ->
      exists d,
        set_duration 0.7 (set_startTime 5.3 noUpdates)
        = set_duration d noUpdates).
Proof.
  apply (resize_keeps_other_edge view_fit [cue_a]
           (mkDrag resize_left "a" 100 5 1) 103 "a").
  exact handleMouseMove_resize_left_eval.
Defined.

(** X8: in a view that is not panned, pressing a cue and moving the pointer
    without displacement changes nothing, whatever the gesture: for a cue
    that lies in the timeline and lasts at least 0.1 s, the patch sent (a
    move always sends one) gives the cue its own start time and duration
    again. *)
Theorem still_drag_is_identity (v : TimelineView) (cues : list HapticCue)
  (cue : HapticCue) (clientX : R) (ctrl : bool) (ty : DragType) :
  viewStartTime v = 0 ->
  In cue cues ->
  0 <= startTime cue ->
  0.1 <= duration cue ->
  startTime cue + duration cue <= totalDuration v ->
  let dragState := snd (handleCueMouseDown clientX ctrl cue ty) in
  match handleMouseMove v cues dragState clientX with
  | Some (cueId, u) => cueId = id cue /\ spread cue u = cue
  | None => ty <> move
  end.
Proof.
  intros Hpan Hin Hs Hd Hend dragState.
  destruct (find_id_of_In cues cue Hin) as (c & Hfind).
  assert (Hdelta : pixelToTime v (clientX - drag_startX dragState) = 0).
  { unfold dragState, handleCueMouseDown; simpl.
    unfold pixelToTime. destruct (timelineWidth v) as [w|]; [| reflexivity].
    case_decide; [reflexivity |]. rewrite Hpan. cbv zeta.
    replace (clientX - clientX) with 0 by lra. unfold Rdiv. lra. }
  assert (Hspread : forall s d,
             s = startTime cue -> d = duration cue ->
             spread cue (set_duration d (set_startTime s noUpdates)) = cue
             /\ spread cue (set_startTime s noUpdates) = cue
             /\ spread cue (set_duration d noUpdates) = cue).
  { intros s d -> ->. destruct cue as [[i s d k] t p | [i s d k] t p];
      destruct p; repeat split; reflexivity. }
  destruct ty.
  - rewrite (handleMouseMove_move v cues dragState clientX c Hfind eq_refl).
    rewrite Hdelta. split; [reflexivity |].
    apply (Hspread _ (duration cue)); [| reflexivity].
    unfold dragState, handleCueMouseDown; simpl. minmax; lra.
  - rewrite (handleMouseMove_resize_left v cues dragState clientX c Hfind eq_refl).
    rewrite Hdelta. cbv zeta. case_decide; [| discriminate].
    split; [reflexivity |].
    apply Hspread; unfold dragState, handleCueMouseDown; simpl; minmax; lra.
  - rewrite (handleMouseMove_resize_right v cues dragState clientX c Hfind eq_refl).
    rewrite Hdelta. cbv zeta. case_decide; [| discriminate].
    split; [reflexivity |].
    apply (Hspread (startTime cue)); [reflexivity |].
    unfold dragState, handleCueMouseDown; simpl; minmax; lra.
Qed.

Lemma still_drag_is_identity_witness :
  let dragState := snd (handleCueMouseDown 100 false cue_a move) in
  match handleMouseMove view_fit [cue_a] dragState 100 with
  | Some (cueId, u) => cueId = id cue_a /\ spread cue_a u = cue_a
  | None => move <> move
  end.
Proof.
  apply (still_drag_is_identity view_fit [cue_a] cue_a 100 false move).
  - reflexivity.
  - left; reflexivity.
  - unfold startTime, cue_a; simpl; lra.
  - unfold duration, cue_a; simpl; lra.
  - unfold startTime, duration, cue_a, view_fit; simpl; lra.
Defined.

(** ** Drop of a library cue *)

Lemma dropTrack_range (y : R) : (0 <= dropTrack y <= 7)%Z.
Proof. unfold dropTrack. lia. Qed.

(** X9: the track of a drop is always one of 0..7; a pointer at height [y]
    with [40 + 36 k <= y < 40 + 36 (k + 1)] for a track [k] of 0..7 gives
    track [k], a pointer above gives track 0 and a pointer below gives
    track 7. *)
Theorem dropTrack_bands (y : R) :
  (0 <= dropTrack y <= 7)%Z
  /\ (forall k : Z,
        (0 <= k <= 7)%Z ->
        40 + 36 * IZR k <= y < 40 + 36 * (IZR k + 1) -> dropTrack y = k)
  /\ (y < 40 -> dropTrack y = 0%Z)
  /\ (40 + 36 * 8 <= y -> dropTrack y = 7%Z).
Proof.
  unfold dropTrack. split; [lia |]. split; [| split].
  - intros k Hk Hy. rewrite (floor_unique _ k); [lia |].
    split.
    + apply Rmult_le_reg_r with 36; [lra |].
      unfold Rdiv. rewrite Rmult_assoc, Rinv_l by lra. lra.
    + apply Rmult_lt_reg_r with 36; [lra |].
      unfold Rdiv. rewrite Rmult_assoc, Rinv_l by lra. lra.
  - intros Hy.
    pose proof (base_Int_part ((y - 40) / 36)) as [Hlo _].
    assert (Hneg : (y - 40) / 36 < 0).
    { apply Rmult_lt_reg_r with 36; [lra |].
      unfold Rdiv. rewrite Rmult_assoc, Rinv_l by lra. lra. }
    assert (Hz : (Math.floor ((y - 40) / 36) < 0)%Z).
    { apply lt_IZR. unfold Math.floor. simpl. lra. }
    lia.
  - intros Hy.
    pose proof (base_Int_part ((y - 40) / 36)) as [_ Hhi].
    assert (Hbig : 8 <= (y - 40) / 36).
    { apply Rmult_le_reg_r with 36; [lra |].
      unfold Rdiv. rewrite Rmult_assoc, Rinv_l by lra. lra. }
    assert (Hz : (7 < Math.floor ((y - 40) / 36))%Z).
    { apply lt_IZR. unfold Math.floor. simpl. lra. }
    lia.
Qed.

Lemma id_newCue now ty t tr : id (newCue now ty t tr) = now.
Proof. destruct ty; reflexivity. Qed.

Lemma type_newCue now ty t tr : type (newCue now ty t tr) = ty.
Proof. destruct ty; reflexivity. Qed.

(** X10: a drop whose data cannot be parsed or carries another tag than
    ['cue-from-library'], or that comes while the tracks container is not
    attached, leaves the session as it is.  A tagged drop calls [onAddCue]
    with the kind it carries, whatever that kind is, at the time of the
    pointer and on the clamped track.  When the kind is one of the cue
    types, the drop appends one cue of that type, at that time, on a track
    of 0..7, and leaves the cues already there, the primary selection and
    the selection set untouched (no overlap check is made). *)
Theorem drop_appends_one_cue (now : string) (v : TimelineView)
  (data : DropData) (rect : option (R * R)) (clientX clientY : R)
  (st : EditorState) :
  (data = Unusable
   \/ (exists kind, data = Parsed None kind)
   \/ (exists tag kind,
         data = Parsed (Some tag) kind /\ tag <> "cue-from-library")
   \/ rect = None ->
   handleDrop v data rect clientX clientY = None
   /\ drop now v data rect clientX clientY st = Some st)
  /\ (forall kind rectLeft rectTop,
        data = Parsed (Some "cue-from-library") kind ->
        rect = Some (rectLeft, rectTop) ->
        handleDrop v data rect clientX clientY
        = Some (kind, pixelToTime v (clientX - rectLeft),
                Some (dropTrack (clientY - rectTop))))
  /\ (forall cueType rectLeft rectTop,
        data = Parsed (Some "cue-from-library") (KnownKind cueType) ->
        rect = Some (rectLeft, rectTop) ->
        exists st' c,
          drop now v data rect clientX clientY st = Some st'
          /\ cues st' = cues st ++ [c]
          /\ type c = cueType
          /\ id c = now
          /\ startTime c = pixelToTime v (clientX - rectLeft)
          /\ (0 <= track c <= 7)%Z
          /\ track c = dropTrack (clientY - rectTop)
          /\ selectedCue st' = selectedCue st
          /\ selectionState st' = selectionState st).
Proof.
  split; [| split].
  - intros [-> | [(kind & ->) | [(tag & kind & -> & Hne) | ->]]];
      unfold drop, handleDrop.
    + split; reflexivity.
    + split; reflexivity.
    + destruct rect as [[rectLeft rectTop]|]; [| split; reflexivity].
      rewrite decide_False by exact Hne. split; reflexivity.
    + destruct data as [| [tag|] kind]; split; reflexivity.
  - intros kind rectLeft rectTop -> ->. unfold handleDrop.
    rewrite decide_True by reflexivity. reflexivity.
  - intros cueType rectLeft rectTop -> ->. unfold drop, handleDrop.
    rewrite decide_True by reflexivity. cbv zeta.
    eexists. eexists. split; [reflexivity |].
    unfold handleAddCue; simpl. split; [reflexivity |].
    rewrite track_newCue, type_newCue, id_newCue.
    repeat split; try (destruct cueType; reflexivity);
      apply (dropTrack_range (clientY - rectTop)).
Qed.

(** ** Selection *)

Lemma firstSelected_Some (cues : list HapticCue) (ids : gset string)
  (c : HapticCue) :
  firstSelected cues ids = Some c -> In c cues /\ id c ∈ ids.
Proof.
  unfold firstSelected. intros H. apply find_some in H as [Hin Hc].
  apply bool_decide_eq_true in Hc. auto.
Qed.

(** X11: after any selection call the primary selection, when there is one,
    is in the selection set; a plain click makes the set the singleton of
    the clicked cue, a click on nothing empties it, and the cue list and the
    marquee are never touched. *)
Theorem handleCueSelect_primary_in_set (cue : option HapticCue)
  (ctrlKey : bool) (st : EditorState) :
  let st' := handleCueSelect cue ctrlKey st in
  (forall c, selectedCue st' = Some c ->
     id c ∈ selectedCueIds (selectionState st'))
  /\ (forall c, cue = Some c -> ctrlKey = false ->
        selectedCue st' = Some c
        /\ selectedCueIds (selectionState st') = {[id c]})
  /\ (cue = None ->
      selectedCue st' = None /\ selectedCueIds (selectionState st') = ∅)
  /\ cues st' = cues st
  /\ marqueeSelection (selectionState st')
     = marqueeSelection (selectionState st).
Proof.
  intros st'. subst st'. unfold handleCueSelect.
  destruct cue as [cue|]; [destruct ctrlKey |]; cbv zeta.
  - case_decide as Hmem; simpl.
    + split; [| repeat split; intros; discriminate].
      intros c. case_decide; [| discriminate].
      intros Hfirst. now apply firstSelected_Some in Hfirst.
    + split; [| repeat split; intros; discriminate].
      intros c [= <-]. set_solver.
  - simpl. split; [intros c [= <-]; set_solver |].
    split; [intros c [= <-] _; split; reflexivity |].
    repeat split; intros; discriminate.
  - simpl. split; [intros c; discriminate |].
    split; [intros c; discriminate |]. repeat split.
Qed.

Lemma handleCueSelect_ctrl_ids (cue : HapticCue) (st : EditorState) :
  selectedCueIds (selectionState (handleCueSelect (Some cue) true st))
  = if decide (id cue ∈ selectedCueIds (selectionState st))
    then selectedCueIds (selectionState st) ∖ {[id cue]}
    else selectedCueIds (selectionState st) ∪ {[id cue]}.
Proof.
  unfold handleCueSelect. cbv zeta.
  destruct (decide (id cue ∈ selectedCueIds (selectionState st)));
    reflexivity.
Qed.

Lemma handleCueSelect_cues (cue : option HapticCue) (ctrlKey : bool)
  (st : EditorState) :
  cues (handleCueSelect cue ctrlKey st) = cues st.
Proof.
  unfold handleCueSelect. cbv zeta.
  destruct cue as [cue|]; [destruct ctrlKey |]; try reflexivity.
  destruct (decide (id cue ∈ selectedCueIds (selectionState st)));
    reflexivity.
Qed.

(** X12: two modifier-clicks on the same cue give the selection set back:
    the first toggles the cue's id in or out of the set, the second toggles
    it back (the primary selection need not come back). *)
Theorem ctrl_click_twice (cue : HapticCue) (st : EditorState) :
  let st1 := handleCueSelect (Some cue) true st in
  let st2 := handleCueSelect (Some cue) true st1 in
  (id cue ∈ selectedCueIds (selectionState st1)
   <-> id cue ∉ selectedCueIds (selectionState st))
  /\ (forall i, i <> id cue ->
        i ∈ selectedCueIds (selectionState st1)
        <-> i ∈ selectedCueIds (selectionState st))
  /\ selectedCueIds (selectionState st2) = selectedCueIds (selectionState st)
  /\ cues st2 = cues st.
Proof.
  intros st1 st2.
  pose proof (handleCueSelect_ctrl_ids cue st) as H1. fold st1 in H1.
  pose proof (handleCueSelect_ctrl_ids cue st1) as H2. fold st2 in H2.
  assert (Hc : cues st2 = cues st).
  { unfold st2. rewrite handleCueSelect_cues. unfold st1.
    apply handleCueSelect_cues. }
  rewrite H2, H1. clear H1 H2.
  split; [| split; [| split; [| exact Hc]]]; clear Hc; clear st1 st2;
    generalize (selectedCueIds (selectionState st)); clear st; intros ids.
  - destruct (decide (id cue ∈ ids)); set_unfold; intuition congruence.
  - intros i Hne. destruct (decide (id cue ∈ ids)); set_unfold;
      intuition congruence.
  - destruct (decide (id cue ∈ ids)) as [Hin | Hnin].
    + rewrite decide_False by (set_unfold; intuition congruence).
      apply set_eq. intros i. destruct (decide (i = id cue)); set_unfold;
        intuition congruence.
    + rewrite decide_True by (set_unfold; intuition congruence).
      apply set_eq. intros i. set_unfold. intuition congruence.
Qed.

(** ** Deleting and updating one cue *)

Lemma filter_keeps_members {A : Type} (P : A -> Prop)
  `{!forall a, Decision (P a)} (l : list A) :
  (forall a, a ∈ l -> P a) -> filter P l = l.
Proof.
  intros HP. induction l as [| a l IH]; [reflexivity |].
  rewrite filter_cons_True by (apply HP; left).
  f_equal. apply IH. intros b Hb. apply HP. now right.
Qed.

(** X13: deleting a cue by id leaves no cue with that id and keeps the other
    cues, unchanged and in their order; the primary selection is kept
    exactly when it has another id, and cleared when it has the deleted id;
    the selection set is never changed, so the deleted id stays in it.
    Deleting the id of a cue that was just added, when no other cue has that
    id, gives the cue list back. *)
Theorem handleDeleteCue_removes_id (cueId : string) (st : EditorState) :
  let st' := handleDeleteCue cueId st in
  (forall c, c ∈ cues st' <-> c ∈ cues st /\ id c <> cueId)
  /\ sublist (cues st') (cues st)
  /\ filter (fun c => id c <> cueId) (cues st')
     = filter (fun c => id c <> cueId) (cues st)
  /\ (forall c, selectedCue st' = Some c <->
        selectedCue st = Some c /\ id c <> cueId)
  /\ selectionState st' = selectionState st
  /\ (forall ty t tr,
        (forall c, c ∈ cues st -> id c <> cueId) ->
        cues (handleDeleteCue cueId (handleAddCue cueId ty t tr st))
        = cues st).
Proof.
  intros st'. unfold st', handleDeleteCue; simpl.
  split; [| split; [| split; [| split; [| split]]]].
  - intros c. rewrite list_elem_of_filter. tauto.
  - apply sublist_filter.
  - rewrite list_filter_filter. apply list_filter_iff. tauto.
  - intros c. destruct (selectedCue st) as [s|].
    + destruct (decide (id s = cueId)) as [Hid | Hid]; split.
      * discriminate.
      * intros [[= <-] Hne]. contradiction.
      * intros [= <-]. split; [reflexivity | exact Hid].
      * intros [Heq _]. exact Heq.
    + split; [discriminate | intros [Heq _]; discriminate].
  - reflexivity.
  - intros ty t tr Hfresh. rewrite filter_app.
    rewrite filter_cons_False by (rewrite id_newCue; tauto).
    rewrite filter_nil, app_nil_r. now apply filter_keeps_members.
Qed.

Lemma id_spread_if (cueId : string) (u : CueUpdates) (c : HapticCue) :
  id (if decide (id c = cueId) then spread c u else c) = id c.
Proof. case_decide; [apply id_spread | reflexivity]. Qed.

Lemma spread_spread (c : HapticCue) (u : CueUpdates) :
  spread (spread c u) u = spread c u.
Proof.
  destruct c as [b t p | b t p]; destruct u as [us ud ui ush uis uie uss use];
    unfold spread; simpl; f_equal;
    [destruct us, ud | destruct ui, ush | destruct us, ud
     | destruct uis, uie, uss, use];
    reflexivity.
Qed.

(** X14: an update keeps the number of cues and their positions: the cue
    at a position is, after it, the cue that was there when that cue has
    another id, and that cue merged with the patch when it has the id.  So
    an update of an id that no cue has changes no cue.  Applying the same
    patch twice is the same as applying it once, and the selection state is
    not touched. *)
Theorem handleUpdateCue_structure (cueId : string) (u : CueUpdates)
  (st : EditorState) :
  let st' := handleUpdateCue cueId u st in
  length (cues st') = length (cues st)
  /\ (forall i c, cues st !! i = Some c ->
        cues st' !! i
        = Some (if decide (id c = cueId) then spread c u else c))
  /\ (forall i c, cues st !! i = Some c -> id c <> cueId ->
        cues st' !! i = Some c)
  /\ ((forall c, In c (cues st) -> id c <> cueId) -> cues st' = cues st)
  /\ handleUpdateCue cueId u st' = st'
  /\ selectionState st' = selectionState st.
Proof.
  intros st'. unfold st', handleUpdateCue; simpl.
  split; [| split; [| split; [| split; [| split]]]].
  - apply length_map.
  - intros i c Hc.
    change (List.map ?f) with (fmap (M:=list) f).
    now rewrite list_lookup_fmap, Hc.
  - intros i c Hc Hne.
    change (List.map ?f) with (fmap (M:=list) f).
    rewrite list_lookup_fmap, Hc. simpl. now rewrite decide_False.
  - intros Hnone. rewrite <- (map_id (cues st)) at 2.
    apply map_ext_in. intros c Hc. rewrite decide_False; [reflexivity |].
    now apply Hnone.
  - f_equal.
    + rewrite map_map. apply map_ext. intros c.
      destruct (decide (id c = cueId)) as [E | E].
      * rewrite decide_True by (now rewrite id_spread). apply spread_spread.
      * rewrite decide_False by exact E. reflexivity.
    + destruct (selectedCue st) as [prev|]; [| reflexivity].
      destruct (decide (id prev = cueId)) as [E | E].
      * rewrite decide_True by (now rewrite id_spread).
        now rewrite spread_spread.
      * rewrite decide_False by exact E. reflexivity.
  - reflexivity.
Qed.

(** ** Marquee selection *)

Lemma intersects_true (videoDuration : R) (m t : DOMRect) (c : HapticCue) :
  intersects videoDuration m t c = true
  <-> cueLeft videoDuration (rect_width t) c <= rect_right m
      /\ rect_left m <= cueRight videoDuration (rect_width t) c
      /\ cueTop c <= rect_bottom m
      /\ rect_top m <= cueBottom c.
Proof.
  unfold intersects. rewrite negb_true_iff, !orb_false_iff.
  rewrite !bool_decide_eq_false. split.
  - intros [[[H1 H2] H3] H4]. repeat split; lra.
  - intros (H1 & H2 & H3 & H4). repeat split; lra.
Qed.

Lemma marqueeIds_acc (videoDuration : R) (m t : DOMRect)
  (cues : list HapticCue) (acc : gset string) (i : string) :
  i ∈ fold_left
        (fun selectedIds cue =>
           if intersects videoDuration m t cue
           then selectedIds ∪ {[id cue]}
           else selectedIds)
        cues acc
  <-> i ∈ acc
      \/ exists c, In c cues /\ id c = i
                   /\ intersects videoDuration m t c = true.
Proof.
  revert acc. induction cues as [| c cues IH]; intros acc; simpl.
  - split; [auto | intros [H | (c & [] & _)]; exact H].
  - rewrite IH. destruct (intersects videoDuration m t c) eqn:Hc.
    + rewrite elem_of_union, elem_of_singleton. split.
      * intros [[H | ->] | (c' & Hin & Hid & Hi)]; [auto | |].
        -- right. exists c. auto.
        -- right. exists c'. auto.
      * intros [H | (c' & [<- | Hin] & Hid & Hi)]; [auto | |].
        -- left. right. now symmetry.
        -- right. exists c'. auto.
    + split.
      * intros [H | (c' & Hin & Hid & Hi)]; [auto |].
        right. exists c'. auto.
      * intros [H | (c' & [<- | Hin] & Hid & Hi)]; [auto | congruence |].
        right. exists c'. auto.
Qed.

Lemma marqueeIds_spec (videoDuration : R) (m t : DOMRect)
  (cues : list HapticCue) (i : string) :
  i ∈ marqueeIds videoDuration m t cues
  <-> exists c, In c cues /\ id c = i
                /\ intersects videoDuration m t c = true.
Proof.
  unfold marqueeIds. rewrite marqueeIds_acc. split.
  - intros [H | H]; [| exact H]. now apply not_elem_of_empty in H.
  - auto.
Qed.

(** X15: with a video duration that is not 0, a marquee selects exactly the
    ids of the cues whose box meets the
    rectangle, edges included (the box of a cue is placed by its start time
    and duration relative to the whole video and by its track).  So a cue
    whose box lies inside the rectangle is selected, and a rectangle that
    meets no box empties the selection and clears the primary selection;
    the primary selection, when set, is a selected cue of the list.  The cue
    list is not changed. *)
Theorem handleMarqueeSelection_spec (videoDuration : R) (m t : DOMRect)
  (st : EditorState) :
  videoDuration <> 0 ->
  let st' := handleMarqueeSelection videoDuration m t st in
  let w := rect_width t in
  (forall i,
     i ∈ selectedCueIds (selectionState st')
     <-> exists c,
           In c (cues st) /\ id c = i
           /\ cueLeft videoDuration w c <= rect_right m
           /\ rect_left m <= cueRight videoDuration w c
           /\ cueTop c <= rect_bottom m
           /\ rect_top m <= cueBottom c)
  /\ (forall c,
        In c (cues st) ->
        cueLeft videoDuration w c <= cueRight videoDuration w c ->
        rect_left m <= cueLeft videoDuration w c ->
        cueRight videoDuration w c <= rect_right m ->
        rect_top m <= cueTop c ->
        cueBottom c <= rect_bottom m ->
        id c ∈ selectedCueIds (selectionState st'))
  /\ ((forall c, In c (cues st) -> intersects videoDuration m t c = false) ->
      selectedCueIds (selectionState st') = ∅ /\ selectedCue st' = None)
  /\ (forall c, selectedCue st' = Some c ->
        In c (cues st) /\ id c ∈ selectedCueIds (selectionState st'))
  /\ cues st' = cues st.
Proof.
  intros _ st' w.
  assert (Hids : forall i,
             i ∈ selectedCueIds (selectionState st')
             <-> exists c,
                   In c (cues st) /\ id c = i
                   /\ cueLeft videoDuration w c <= rect_right m
                   /\ rect_left m <= cueRight videoDuration w c
                   /\ cueTop c <= rect_bottom m
                   /\ rect_top m <= cueBottom c).
  { intros i. unfold st', handleMarqueeSelection; simpl.
    rewrite marqueeIds_spec. split; intros (c & Hin & Hid & Hc); exists c;
      (split; [exact Hin |]); (split; [exact Hid |]);
      now apply intersects_true. }
  split; [exact Hids |]. split; [| split; [| split]].
  - intros c Hin Hbox Hl Hr Ht Hb. apply Hids. exists c.
    split; [exact Hin |]. split; [reflexivity |].
    unfold cueBottom, cueHeight in *. repeat split; lra.
  - intros Hnone.
    assert (Hempty : selectedCueIds (selectionState st') = ∅).
    { apply set_eq. intros i. split; [| intros H; now apply not_elem_of_empty in H].
      unfold st', handleMarqueeSelection; simpl. rewrite marqueeIds_spec.
      intros (c & Hin & _ & Hc). rewrite (Hnone c Hin) in Hc. discriminate. }
    split; [exact Hempty |].
    unfold st', handleMarqueeSelection in *; simpl in *.
    rewrite Hempty, size_empty. case_decide; [lia | reflexivity].
  - intros c. unfold st', handleMarqueeSelection; simpl.
    case_decide; [| discriminate]. intros Hfirst.
    now apply firstSelected_Some in Hfirst.
  - reflexivity.
Qed.

Lemma handleMarqueeSelection_spec_witness :
  let st' :=
    handleMarqueeSelection 60 marquee_first timeline_rect session_two in
  let w := rect_width timeline_rect in
  (forall i,
     i ∈ selectedCueIds (selectionState st')
     <-> exists c,
           In c (cues session_two) /\ id c = i
           /\ cueLeft 60 w c <= rect_right marquee_first
           /\ rect_left marquee_first <= cueRight 60 w c
           /\ cueTop c <= rect_bottom marquee_first
           /\ rect_top marquee_first <= cueBottom c)
  /\ (forall c,
        In c (cues session_two) ->
        cueLeft 60 w c <= cueRight 60 w c ->
        rect_left marquee_first <= cueLeft 60 w c ->
        cueRight 60 w c <= rect_right marquee_first ->
        rect_top marquee_first <= cueTop c ->
        cueBottom c <= rect_bottom marquee_first ->
        id c ∈ selectedCueIds (selectionState st'))
  /\ ((forall c, In c (cues session_two) ->
         intersects 60 marquee_first timeline_rect c = false) ->
      selectedCueIds (selectionState st') = ∅ /\ selectedCue st' = None)
  /\ (forall c, selectedCue st' = Some c ->
        In c (cues session_two)
        /\ id c ∈ selectedCueIds (selectionState st'))
  /\ cues st' = cues session_two.
Proof.
  apply (handleMarqueeSelection_spec 60 marquee_first timeline_rect
           session_two).
  lra.
Defined.

(** In that session the marquee around the first cue's box selects it. *)
Example marquee_selects_first :
  "c1" ∈ selectedCueIds
           (selectionState
              (handleMarqueeSelection 60 marquee_first timeline_rect
                 session_two)).
Proof.
  unfold handleMarqueeSelection; simpl. apply marqueeIds_spec.
  exists cue_first. split; [left; reflexivity |]. split; [reflexivity |].
  apply intersects_true.
  unfold cueLeft, cueRight, cueWidth, cueTop, cueBottom, cueHeight,
    rect_left, rect_right, rect_top, rect_bottom, startTime, duration, track,
    marquee_first, timeline_rect, cue_first; simpl.
  unfold cueLeft, cueTop, startTime, track; simpl.
  repeat split; minmax; lra.
Qed.

(** X16: releasing a marquee that is at most 5 px wide or at most 5 px high
    changes nothing; a larger one selects with the rectangle whose edges are
    the smaller and the greater of the pressed and the current pointer
    coordinates, whatever the direction of the drag. *)
Theorem marqueeRelease_threshold (videoDuration : R) (m : Marquee)
  (rect : DOMRect) (st : EditorState) :
  (Math.abs (currentX m - startX m) <= 5
   \/ Math.abs (currentY m - startY m) <= 5 ->
   marqueeRelease videoDuration (Some m) (Some rect) st = st)
  /\ (Math.abs (currentX m - startX m) > 5 ->
      Math.abs (currentY m - startY m) > 5 ->
      exists r,
        marqueeRelease videoDuration (Some m) (Some rect) st
        = handleMarqueeSelection videoDuration r rect st
        /\ rect_left r = Math.min (startX m) (currentX m)
        /\ rect_right r = Math.max (startX m) (currentX m)
        /\ rect_top r = Math.min (startY m) (currentY m)
        /\ rect_bottom r = Math.max (startY m) (currentY m))
  /\ marqueeRelease videoDuration None (Some rect) st = st
  /\ marqueeRelease videoDuration (Some m) None st = st.
Proof.
  split; [| split; [| split; reflexivity]].
  - intros Hsmall. unfold marqueeRelease, marqueeMouseUp. cbv zeta.
    simpl rect_width. simpl rect_height.
    destruct Hsmall as [Hx | Hy].
    + rewrite (bool_decide_eq_false_2 (_ > 5)) by lra. reflexivity.
    + rewrite (bool_decide_eq_false_2 (Math.abs (currentY m - startY m) > 5))
        by lra.
      rewrite andb_false_r. reflexivity.
  - intros Hx Hy. unfold marqueeRelease, marqueeMouseUp. cbv zeta.
    simpl rect_width. simpl rect_height.
    rewrite !bool_decide_eq_true_2 by assumption. simpl.
    eexists. split; [reflexivity |].
    unfold rect_left, rect_right, rect_top, rect_bottom; simpl.
    unfold Math.abs, Rabs.
    repeat split;
      [destruct (Rcase_abs (currentX m - startX m))
      | destruct (Rcase_abs (currentX m - startX m))
      | destruct (Rcase_abs (currentY m - startY m))
      | destruct (Rcase_abs (currentY m - startY m))];
      minmax; lra.
Qed.

(** ** Selecting and deleting *)

Lemma handleDeleteSelectedCues_nonempty (st : EditorState) :
  selectedCueIds (selectionState st) <> ∅ ->
  handleDeleteSelectedCues st
  = mkEditor
      (filter (fun cue => id cue ∉ selectedCueIds (selectionState st))
         (cues st))
      None
      (mkSelection ∅ (marqueeSelection (selectionState st))).
Proof.
  intros Hne. unfold handleDeleteSelectedCues. cbv zeta.
  destruct (decide (size (selectedCueIds (selectionState st)) = 0%nat))
    as [Hsize | _]; [| reflexivity].
  apply size_empty_inv, leibniz_equiv in Hsize. contradiction.
Qed.

(** X17: after a plain click on a cue, deleting the selection removes the
    cues with the id of that cue and no other, as deleting that cue by id
    does, and leaves nothing selected. *)
Theorem click_then_delete (cue : HapticCue) (st : EditorState) :
  let st' := handleDeleteSelectedCues (handleCueSelect (Some cue) false st) in
  cues st' = cues (handleDeleteCue (id cue) st)
  /\ selectedCue st' = None
  /\ selectedCueIds (selectionState st') = ∅.
Proof.
  intros st'. unfold st'.
  rewrite handleDeleteSelectedCues_nonempty.
  - split; [| split; reflexivity]. simpl.
    apply list_filter_iff. intros c. rewrite elem_of_singleton. tauto.
  - simpl. intros E. apply (not_elem_of_empty (C:=gset string) (id cue)).
    rewrite <- E. now apply elem_of_singleton.
Qed.

(** ** Export *)

(** X18: the export has one record per cue, in the order of the cue list
    ([cue_count] is its length), and a record keeps everything of its cue
    but the id and the track: two cues have the same record exactly when
    they differ at most in id and track. *)
Theorem export_forgets_id_and_track (cues : list HapticCue)
  (c1 c2 : HapticCue) :
  length (exportCues cues) = cue_count cues
  /\ (forall i c, cues !! i = Some c -> exportCues cues !! i = Some (exportCue c))
  /\ (exportCue c1 = exportCue c2 <-> relabel (id c2) (track c2) c1 = c2).
Proof.
  split; [apply length_map |]. split.
  - intros i c Hc. unfold exportCues.
    change (List.map exportCue) with (fmap (M:=list) exportCue).
    now rewrite list_lookup_fmap, Hc.
  - destruct c1 as [[i1 s1 d1 k1] t1 p1 | [i1 s1 d1 k1] t1 p1];
      destruct c2 as [[i2 s2 d2 k2] t2 p2 | [i2 s2 d2 k2] t2 p2];
      destruct p1, p2; unfold relabel, exportCue, id, track; simpl;
      split; intros H; try discriminate; injection H; intros; subst;
      reflexivity.
Qed.

(** ** Frame stepping *)

(** X19: for a positive frame rate, a step back never goes below 0 and a
    step forward never goes past the duration of the video (past 0 when the
    duration is not known); a step forward that stays within the video
    followed by a step back returns to the time it started from, and so
    does a step back that stays above 0 followed by a step forward. *)
Theorem frame_steps (videoDuration : option R) (frameRate t : R) :
  0 < frameRate ->
  0 <= handlePreviousFrame frameRate t
  /\ handleNextFrame videoDuration frameRate t <= default 0 videoDuration
  /\ (0 <= t -> t + 1 / frameRate <= default 0 videoDuration ->
      handlePreviousFrame frameRate (handleNextFrame videoDuration frameRate t)
      = t)
  /\ (1 / frameRate <= t -> t <= default 0 videoDuration ->
      handleNextFrame videoDuration frameRate (handlePreviousFrame frameRate t)
      = t).
Proof.
  intros Hf. unfold handlePreviousFrame, handleNextFrame. cbv zeta.
  assert (0 < 1 / frameRate) by (apply Rdiv_lt_0_compat; lra).
  set (f := 1 / frameRate) in *. set (d := default 0 videoDuration).
  repeat split; intros; minmax; lra.
Qed.

Lemma frame_steps_witness :
  0 <= handlePreviousFrame 30 10
  /\ handleNextFrame (Some 60) 30 10 <= default 0 (Some 60)
  /\ (0 <= 10 -> 10 + 1 / 30 <= default 0 (Some 60) ->
      handlePreviousFrame 30 (handleNextFrame (Some 60) 30 10) = 10)
  /\ (1 / 30 <= 10 -> 10 <= default 0 (Some 60) ->
      handleNextFrame (Some 60) 30 (handlePreviousFrame 30 10) = 10).
Proof. apply (frame_steps (Some 60) 30 10). lra. Defined.

(** ** Audio peaks *)

Lemma windowPeak_acc (samples : list R) (js : list nat) (acc : R) :
  let r :=
    fold_left (fun max j => Math.max max (Math.abs (nth j samples 0))) js acc in
  acc <= r
  /\ (forall j, In j js -> Math.abs (nth j samples 0) <= r)
  /\ (r = acc \/ exists j, In j js /\ r = Math.abs (nth j samples 0)).
Proof.
  revert acc. induction js as [| j js IH]; intros acc; simpl.
  - split; [lra |]. split; [intros j [] | left; reflexivity].
  - specialize (IH (Math.max acc (Math.abs (nth j samples 0)))).
    cbv zeta in IH. destruct IH as (Hacc & Hall & Hatt).
    set (r := fold_left _ js _) in *.
    pose proof (max_lower acc (Math.abs (nth j samples 0))).
    pose proof (max_upper acc (Math.abs (nth j samples 0))).
    split; [lra |]. split.
    + intros k [<- | Hk]; [lra | auto].
    + destruct Hatt as [Hr | (k & Hk & Hr)].
      * rewrite Hr. unfold Math.max, Rmax.
        destruct (Rle_dec acc (Math.abs (nth j samples 0)));
          [right; exists j; auto | left; reflexivity].
      * right. exists k. auto.
Qed.

(** The peak of a window is not negative and bounds every sample of the
    window in absolute value; it is 0 or the absolute value of one of them. *)
Lemma windowPeak_spec (samples : list R) (start end_ : nat) :
  let p := windowPeak samples start end_ in
  0 <= p
  /\ (forall j, (start <= j < end_)%nat -> Math.abs (nth j samples 0) <= p)
  /\ (p = 0
      \/ exists j, (start <= j < end_)%nat /\ p = Math.abs (nth j samples 0)).
Proof.
  unfold windowPeak.
  destruct (windowPeak_acc samples (seq start (end_ - start)) 0)
    as (H0 & Hall & Hatt).
  split; [exact H0 |]. split.
  - intros j Hj. apply Hall. apply in_seq. lia.
  - destruct Hatt as [Hr | (j & Hj & Hr)]; [left; exact Hr | right].
    exists j. apply in_seq in Hj. split; [lia | exact Hr].
Qed.

(** X20: the peaks are [targetPeakCount] numbers; with [n = floor(length /
    targetPeakCount)] samples per peak, peak [i] is the greatest absolute
    value of the samples [i * n .. (i + 1) * n - 1], all of which exist: it
    is not negative, no sample of its window exceeds it, and it is 0 (always
    so when there are fewer samples than peaks) or attained by a sample of
    the window.  The samples from [targetPeakCount * n] on are in no
    window. *)
Theorem generateAudioPeaks_windows (samples : list R) (targetPeakCount : nat) :
  let n := (length samples / targetPeakCount)%nat in
  let peaks := generateAudioPeaks samples targetPeakCount in
  length peaks = targetPeakCount
  /\ (forall i p,
        peaks !! i = Some p ->
        ((i + 1) * n <= length samples)%nat
        /\ 0 <= p
        /\ (forall j, (i * n <= j < (i + 1) * n)%nat ->
              Math.abs (nth j samples 0) <= p)
        /\ (p = 0
            \/ exists j, (i * n <= j < (i + 1) * n)%nat
                         /\ p = Math.abs (nth j samples 0)))
  /\ ((length samples < targetPeakCount)%nat ->
      forall i p, peaks !! i = Some p -> p = 0).
Proof.
  intros n peaks.
  assert (Hlen : length peaks = targetPeakCount)
    by (unfold peaks, generateAudioPeaks; now rewrite length_map, length_seq).
  assert (Hpeak : forall i p,
             peaks !! i = Some p ->
             (i < targetPeakCount)%nat
             /\ p = windowPeak samples (i * n)
                      (Nat.min (i * n + n) (length samples))).
  { intros i p Hp. unfold peaks, generateAudioPeaks in Hp. cbv zeta in Hp.
    change (List.map ?f) with (fmap (M:=list) f) in Hp.
    rewrite list_lookup_fmap in Hp.
    apply fmap_Some in Hp as (k & Hk & ->).
    apply lookup_seq in Hk as [-> Hlt]. split; [exact Hlt | reflexivity]. }
  assert (Hfit : forall i, (i < targetPeakCount)%nat ->
                           ((i + 1) * n <= length samples)%nat).
  { intros i Hi. unfold n.
    pose proof (Nat.Div0.mul_div_le (length samples) targetPeakCount).
    nia. }
  split; [exact Hlen |]. split.
  - intros i p Hp. apply Hpeak in Hp as [Hi ->].
    pose proof (Hfit i Hi) as Hle. split; [exact Hle |].
    replace (Nat.min (i * n + n) (length samples)) with ((i + 1) * n)%nat
      by lia.
    apply windowPeak_spec.
  - intros Hfew i p Hp. apply Hpeak in Hp as [Hi ->].
    assert (Hn : n = 0%nat) by (unfold n; now apply Nat.div_small).
    rewrite Hn. replace (i * 0 + 0)%nat with (i * 0)%nat by lia.
    unfold windowPeak. replace (Nat.min (i * 0) (length samples) - i * 0)%nat
      with 0%nat by lia.
    reflexivity.
Qed.

Example generateAudioPeaks_six :
  generateAudioPeaks samples_six 2 = [0.5; 0.3].
Proof.
  unfold generateAudioPeaks, samples_six, windowPeak; simpl.
  unfold Math.abs, Rabs.
  repeat match goal with
         | |- context [Rcase_abs ?a] => destruct (Rcase_abs a); try lra
         end.
  repeat f_equal; minmax; lra.
Qed.

(** ** Curve shaping *)

Lemma exp_le_mono (a b : R) : a <= b -> exp a <= exp b.
Proof.
  intros [Hlt | ->]; [left; now apply exp_increasing | right; reflexivity].
Qed.

Lemma ln_nonpos (a : R) : 0 < a <= 1 -> ln a <= 0.
Proof.
  intros [Hpos [Hlt | ->]]; [| rewrite ln_1; lra].
  rewrite <- ln_1. left. now apply ln_increasing.
Qed.

Lemma Rpower_unit (a e : R) : 0 < a <= 1 -> 0 <= e -> 0 < Rpower a e <= 1.
Proof.
  intros Ha He. unfold Rpower. split; [apply exp_pos |].
  rewrite <- exp_0. apply exp_le_mono.
  pose proof (ln_nonpos a Ha). nra.
Qed.

Lemma Rpower_ge_base (a e : R) : 0 < a <= 1 -> e <= 1 -> a <= Rpower a e.
Proof.
  intros Ha He. unfold Rpower.
  rewrite <- (exp_ln a) at 1 by lra. apply exp_le_mono.
  pose proof (ln_nonpos a Ha). nra.
Qed.

Lemma Rpower_one (e : R) : Rpower 1 e = 1.
Proof. unfold Rpower. rewrite ln_1, Rmult_0_r. apply exp_0. Qed.

Lemma pow_zero (e : R) : e <> 0 -> Math.pow 0 e = 0.
Proof.
  intros He. unfold Math.pow. rewrite decide_True by reflexivity.
  now rewrite decide_False.
Qed.

Lemma pow_one (e : R) : Math.pow 1 e = 1.
Proof.
  unfold Math.pow. rewrite decide_False by lra. apply Rpower_one.
Qed.

Lemma pow_unit (a e : R) : 0 <= a <= 1 -> 0 <= e -> 0 <= Math.pow a e <= 1.
Proof.
  intros Ha He. unfold Math.pow.
  destruct (decide (a = 0)) as [-> | Hne].
  - destruct (decide (e = 0)); lra.
  - pose proof (Rpower_unit a e). lra.
Qed.

Lemma pow_ge_base (a e : R) : 0 <= a <= 1 -> e <= 1 -> a <= Math.pow a e.
Proof.
  intros Ha He. unfold Math.pow.
  destruct (decide (a = 0)) as [-> | Hne].
  - destruct (decide (e = 0)); lra.
  - apply Rpower_ge_base; lra.
Qed.

Lemma sharpness_exponent (s : R) :
  0.3 <= 1 - Math.max 0 (Math.min 1 s) * 0.7 <= 1.
Proof. minmax; lra. Qed.

Lemma applySharpnessFilter_unit (v s : R) :
  0 <= v <= 1 -> v <= applySharpnessFilter v s <= 1.
Proof.
  intros Hv. unfold applySharpnessFilter. cbv zeta.
  pose proof (sharpness_exponent s) as He.
  destruct (decide (v >= 0)) as [_ | Hn]; [| lra].
  split; [apply pow_ge_base | apply pow_unit]; lra.
Qed.

(** X21: the sharpness filter is odd, [f(-v) = -f(v)]; on [[0, 1]] it stays
    in [[0, 1]] and never lowers a value, [v <= f(v) <= 1], with [f(0) = 0]
    and [f(1) = 1]; a sharpness of 0 or less makes it the identity, and a
    sharpness above 1 acts as 1. *)
Theorem applySharpnessFilter_shape (v s : R) :
  applySharpnessFilter (- v) s = - applySharpnessFilter v s
  /\ (0 <= v <= 1 -> v <= applySharpnessFilter v s <= 1)
  /\ applySharpnessFilter 0 s = 0
  /\ applySharpnessFilter 1 s = 1
  /\ (s <= 0 -> applySharpnessFilter v s = v)
  /\ (1 <= s -> applySharpnessFilter v s = applySharpnessFilter v 1).
Proof.
  pose proof (sharpness_exponent s) as He.
  assert (H0 : applySharpnessFilter 0 s = 0).
  { unfold applySharpnessFilter. cbv zeta. rewrite decide_True by lra.
    apply pow_zero. lra. }
  split; [| split; [| split; [| split; [| split]]]].
  - destruct (Rtotal_order v 0) as [Hneg | [-> | Hpos]].
    + unfold applySharpnessFilter. cbv zeta.
      rewrite (decide_True (P := - v >= 0)) by lra.
      rewrite (decide_False (P := v >= 0)) by lra. lra.
    + rewrite Ropp_0, H0. lra.
    + unfold applySharpnessFilter. cbv zeta.
      rewrite (decide_False (P := - v >= 0)) by lra.
      rewrite (decide_True (P := v >= 0)) by lra.
      now rewrite Ropp_involutive.
  - apply applySharpnessFilter_unit.
  - exact H0.
  - unfold applySharpnessFilter. cbv zeta. rewrite decide_True by lra.
    apply pow_one.
  - intros Hs. unfold applySharpnessFilter. cbv zeta.
    replace (1 - Math.max 0 (Math.min 1 s) * 0.7) with 1 by (minmax; lra).
    unfold Math.pow.
    destruct (decide (v >= 0)) as [Hv | Hv].
    + destruct (decide (v = 0)) as [-> | Hne].
      * rewrite decide_False by lra. reflexivity.
      * apply Rpower_1. lra.
    + rewrite (decide_False (P := - v = 0)) by lra.
      rewrite Rpower_1 by lra. lra.
  - intros Hs. unfold applySharpnessFilter. cbv zeta.
    replace (Math.max 0 (Math.min 1 s)) with (Math.max 0 (Math.min 1 1))
      by (minmax; lra).
    reflexivity.
Qed.

(** ** Bounds of the synthesized curves *)

Lemma rem1_unit (a : R) : 0 <= a -> 0 <= rem1 a < 1.
Proof.
  intros Ha. unfold rem1, trunc. rewrite decide_True by exact Ha.
  pose proof (base_Int_part a) as [Hlo Hhi]. lra.
Qed.

Lemma progress_unit (n : Z) (i : nat) :
  (2 <= n)%Z -> (i < Z.to_nat n)%nat -> 0 <= progress n i <= 1.
Proof.
  intros Hn Hi. split.
  - rewrite <- (progress_first n). apply progress_mono; [exact Hn | lia].
  - rewrite <- (progress_last n Hn). apply progress_mono; [exact Hn | lia].
Qed.

Lemma sin_unit (a : R) : 0 <= a <= 1 -> 0 <= Math.sin (a * Math.PI) <= 1.
Proof.
  intros Ha. unfold Math.sin, Math.PI. pose proof PI_RGT_0 as Hpi.
  split; [| apply SIN_bound].
  apply sin_ge_0; nra.
Qed.

Lemma exp_unit (a : R) : a <= 0 -> 0 < Math.exp a <= 1.
Proof.
  intros Ha. unfold Math.exp. split; [apply exp_pos |].
  rewrite <- exp_0. now apply exp_le_mono.
Qed.

(** The points of a static cue, by family. *)
Lemma lookup_static_points (rnd : Math.random_source) (b : BaseCue)
  (t : StaticCueType) (p : StaticCueProperties) (width height zoomLevel : R)
  (i : nat) (pt : WaveformPoint) :
  let cue := StaticHapticCue b t p in
  let n := sampleCountOf (duration cue) zoomLevel in
  points (generateWaveformData rnd cue width height zoomLevel) !! i = Some pt ->
  (i < Z.to_nat n)%nat
  /\ pt = match t with
          | st_rumble_low => rumblePoint cue width height n rnd 2.0 i
          | st_rumble_high => rumblePoint cue width height n rnd 8.0 i
          | st_kick_soft => impactPoint cue width height n soft i
          | st_kick_hard => impactPoint cue width height n hard i
          | st_heartbeat_slow => heartbeatPoint cue width height n 1.2 i
          | st_heartbeat_fast => heartbeatPoint cue width height n 0.6 i
          | st_pulse => pulsePoint cue width height n i
          | st_explosion => explosionPoint cue width height n i
          end.
Proof.
  intros cue n Hpt. unfold generateWaveformData in Hpt.
  destruct t; simpl type in Hpt; cbv iota zeta in Hpt;
    apply lookup_sampleLoop in Hpt; exact Hpt.
Qed.

Lemma static_cue_inv (cue : HapticCue) (t : StaticCueType) :
  type cue = static_type t -> exists b p, cue = StaticHapticCue b t p.
Proof.
  destruct cue as [b t' p | b t' p]; destruct t, t'; try discriminate;
    intros _; now exists b, p.
Qed.

(** *** Kick *)

Lemma impactPoint_bounds (cue : HapticCue) (width height : R) (n : Z)
  (ty : ImpactType) (i : nat) :
  0 <= scalarIntensity cue -> 0 <= height ->
  let amplitude := scalarIntensity cue * (height * 0.45) in
  height / 2 - amplitude <= y (impactPoint cue width height n ty i)
  <= height / 2.
Proof.
  intros Hi Hh amplitude.
  assert (Hamp : 0 <= amplitude) by (unfold amplitude; nra).
  unfold impactPoint. cbv zeta. simpl y. fold amplitude.
  set (t := progress n i).
  set (pp := match ty with soft => 0.25 | hard => 0.15 end).
  set (pw := match ty with soft => 0.15 | hard => 0.08 end).
  set (rate := match ty with soft => 6 | hard => 12 end).
  assert (Hpw : 0 < pw) by (unfold pw; destruct ty; lra).
  assert (Hrate : 0 < rate) by (unfold rate; destruct ty; lra).
  destruct (decide (t <= pp + pw)) as [Hattack | Hdecay].
  - destruct (decide (Math.abs (t - pp) <= pw)) as [Hnear | Hfar]; [| lra].
    set (pf := 1 - Math.abs (t - pp) / pw).
    assert (Hpf : 0 <= pf <= 1).
    { unfold pf. pose proof (Rabs_pos (t - pp)) as Habs.
      fold (Math.abs (t - pp)) in Habs.
      assert (0 <= Math.abs (t - pp) / pw <= 1).
      { split.
        - apply Rmult_le_pos; [exact Habs |]. left. now apply Rinv_0_lt_compat.
        - apply Rmult_le_reg_r with pw; [exact Hpw |].
          unfold Rdiv. rewrite Rmult_assoc, Rinv_l by lra. lra. }
      lra. }
    assert (Hsin : 0 <= Math.sin (pf * Math.PI * 0.5) <= 1).
    { unfold Math.sin, Math.PI. pose proof PI_RGT_0 as Hpi.
      split; [| apply SIN_bound]. apply sin_ge_0; nra. }
    pose proof (applySharpnessFilter_unit _ (scalarSharpness cue) Hsin)
      as Hf.
    set (f := applySharpnessFilter _ _) in *. nra.
  - set (dt := t - (pp + pw)).
    assert (Hdt : 0 < dt) by (unfold dt; lra).
    assert (Hdf : 0 < Math.exp (- dt * rate) <= 1) by (apply exp_unit; nra).
    set (df := Math.exp _) in *.
    pose proof (SIN_bound (dt * (20 * (1 + scalarSharpness cue)) * 2 * PI))
      as Hs.
    unfold Math.sin, Math.PI.
    set (sn := sin _) in *.
    assert (Hprod : 0 <= df * (1 + sn * 0.1) <= 1.1) by nra.
    replace (amplitude * 0.2 * df * (1 + sn * 0.1))
      with (amplitude * 0.2 * (df * (1 + sn * 0.1))) by ring.
    set (q := df * (1 + sn * 0.1)) in *. nra.
Qed.

(** X22: every point of a kick (soft or hard) of intensity in [[0, 1]] lies
    on or above the center line, within [0.45 * height] of it:
    [height/2 - intensity * 0.45 * height <= y <= height/2], whatever the
    sharpness; the first point is on the center line. *)
Theorem kick_stays_in_band (rnd : Math.random_source) (cue : HapticCue)
  (width height zoomLevel : R) (i : nat) (pt : WaveformPoint) :
  type cue = kick_soft \/ type cue = kick_hard ->
  0 <= scalarIntensity cue <= 1 ->
  0 <= height ->
  points (generateWaveformData rnd cue width height zoomLevel) !! i = Some pt ->
  height / 2 - scalarIntensity cue * (height * 0.45) <= y pt <= height / 2
  /\ height / 2 - 0.45 * height <= y pt
  /\ (i = 0%nat -> y pt = height / 2).
Proof.
  intros Hty Hi Hh Hpt.
  assert (Hb : height / 2 - scalarIntensity cue * (height * 0.45) <= y pt
               <= height / 2
               /\ (i = 0%nat -> y pt = height / 2)).
  { destruct Hty as [Hty | Hty];
      [destruct (static_cue_inv cue st_kick_soft Hty) as (b & p & ->)
      | destruct (static_cue_inv cue st_kick_hard Hty) as (b & p & ->)];
      apply lookup_static_points in Hpt as [_ ->];
      (split; [apply impactPoint_bounds; lra |]);
      intros ->; unfold impactPoint; cbv zeta; simpl y;
      rewrite progress_first;
      (rewrite decide_True by lra);
      rewrite decide_False; try reflexivity;
      unfold Math.abs, Rabs;
      match goal with |- context [Rcase_abs ?a] => destruct (Rcase_abs a) end;
      lra. }
  destruct Hb as [Hband Hfirst]. split; [exact Hband |].
  split; [nra | exact Hfirst].
Qed.

Lemma kick_stays_in_band_witness :
  let pt := impactPoint cue_kick 100 32
              (sampleCountOf (duration cue_kick) 1) hard 0 in
  32 / 2 - scalarIntensity cue_kick * (32 * 0.45) <= y pt <= 32 / 2
  /\ 32 / 2 - 0.45 * 32 <= y pt
  /\ (0%nat = 0%nat -> y pt = 32 / 2).
Proof.
  apply (kick_stays_in_band draws_zero cue_kick 100 32 1 0).
  - right; reflexivity.
  - unfold scalarIntensity, cue_kick; simpl; lra.
  - lra.
  - unfold generateWaveformData. simpl type. cbv iota zeta.
    apply lookup_sampleLoop. split; [| reflexivity].
    pose proof (sampleCountOf_range (duration cue_kick) 1). lia.
Defined.

(** *** Heartbeat *)

Lemma heartbeatPoint_bounds (cue : HapticCue) (width height : R) (n : Z)
  (beatInterval : R) (i : nat) :
  0 <= scalarIntensity cue -> 0 <= height ->
  0 <= progress n i * (duration cue / beatInterval) ->
  let amplitude := scalarIntensity cue * (height * 0.4) in
  height / 2 - 0.8 * amplitude
  <= y (heartbeatPoint cue width height n beatInterval i)
  <= height / 2.
Proof.
  intros Hi Hh Ht amplitude.
  assert (Hamp : 0 <= amplitude) by (unfold amplitude; nra).
  unfold heartbeatPoint. cbv zeta. simpl y. fold amplitude.
  pose proof (rem1_unit _ Ht) as Hphase.
  set (phase := rem1 _) in *.
  destruct (decide (phase < 0.12)) as [H1 | H1].
  - assert (Hs : 0 <= Math.sin (phase / 0.12 * Math.PI) <= 1)
      by (apply sin_unit; lra).
    pose proof (applySharpnessFilter_unit _ (scalarSharpness cue) Hs) as Hf.
    set (f := applySharpnessFilter _ _) in *. nra.
  - destruct (decide (phase > 0.18 /\ phase < 0.28)) as [H2 | H2].
    + assert (Hs : 0 <= Math.sin ((phase - 0.18) / 0.10 * Math.PI) <= 1)
        by (apply sin_unit; lra).
      pose proof (applySharpnessFilter_unit _ (scalarSharpness cue) Hs) as Hf.
      set (f := applySharpnessFilter _ _) in *. nra.
    + destruct (decide (phase > 0.28 /\ phase < 0.35)) as [H3 | H3]; [| lra].
      assert (Hs : 0 <= Math.sin ((phase - 0.28) / 0.07 * Math.PI) <= 1)
        by (apply sin_unit; lra).
      set (sn := Math.sin _) in *. nra.
Qed.

(** X23: every point of a heartbeat (slow or fast) of intensity in
    [[0, 1]] and of non-negative duration lies on or above the center line,
    within [0.8 * intensity * 0.4 * height] of it, whatever the
    sharpness. *)
Theorem heartbeat_stays_in_band (rnd : Math.random_source) (cue : HapticCue)
  (width height zoomLevel : R) (i : nat) (pt : WaveformPoint) :
  type cue = heartbeat_slow \/ type cue = heartbeat_fast ->
  0 <= scalarIntensity cue <= 1 ->
  0 <= duration cue ->
  0 <= height ->
  points (generateWaveformData rnd cue width height zoomLevel) !! i = Some pt ->
  height / 2 - 0.8 * (scalarIntensity cue * (height * 0.4)) <= y pt
  <= height / 2
  /\ height / 2 - 0.32 * height <= y pt.
Proof.
  intros Hty Hi Hd Hh Hpt.
  pose proof (sampleCountOf_range (duration cue) zoomLevel) as Hn.
  assert (Hb : height / 2 - 0.8 * (scalarIntensity cue * (height * 0.4))
               <= y pt <= height / 2).
  { destruct Hty as [Hty | Hty];
      [destruct (static_cue_inv cue st_heartbeat_slow Hty) as (b & p & ->)
      | destruct (static_cue_inv cue st_heartbeat_fast Hty) as (b & p & ->)];
      apply lookup_static_points in Hpt as [Hlt ->];
      (apply heartbeatPoint_bounds; [lra | lra |]);
      (apply Rmult_le_pos; [apply progress_unit; [lia | exact Hlt] |]);
      (apply Rmult_le_pos; [exact Hd | lra]). }
  split; [exact Hb | nra].
Qed.

Lemma heartbeat_stays_in_band_witness :
  let pt := heartbeatPoint cue_heartbeat 100 32
              (sampleCountOf (duration cue_heartbeat) 1) 1.2 3 in
  32 / 2 - 0.8 * (scalarIntensity cue_heartbeat * (32 * 0.4)) <= y pt
  <= 32 / 2
  /\ 32 / 2 - 0.32 * 32 <= y pt.
Proof.
  apply (heartbeat_stays_in_band draws_zero cue_heartbeat 100 32 1 3).
  - left; reflexivity.
  - unfold scalarIntensity, cue_heartbeat; simpl; lra.
  - unfold duration, cue_heartbeat; simpl; lra.
  - lra.
  - unfold generateWaveformData. simpl type. cbv iota zeta.
    apply lookup_sampleLoop. split; [| reflexivity].
    pose proof (sampleCountOf_range (duration cue_heartbeat) 1). lia.
Defined.

(** *** Pulse *)

Lemma pulsePoint_bounds (cue : HapticCue) (width height : R) (n : Z)
  (i : nat) :
  0 <= scalarIntensity cue -> 0 <= height ->
  0 <= progress n i * totalPulses cue ->
  let amplitude := scalarIntensity cue * (height * 0.4) in
  height / 2 - amplitude <= y (pulsePoint cue width height n i) <= height / 2.
Proof.
  intros Hi Hh Ht amplitude.
  assert (Hamp : 0 <= amplitude) by (unfold amplitude; nra).
  unfold pulsePoint. cbv zeta. simpl y. fold amplitude.
  unfold pulsePhase. pose proof (rem1_unit _ Ht) as Hphase.
  set (phase := rem1 _) in *. set (duty := dutyCycle cue).
  set (edge := (1 - scalarSharpness cue) * 0.1).
  destruct (decide (phase < duty)) as [Hon | Hoff]; [| nra].
  assert (Hv : 0 <= (if decide (phase < edge) then phase / edge
                     else if decide (phase > duty - edge)
                          then (duty - phase) / edge else 1) <= 1).
  { destruct (decide (phase < edge)) as [Hrise | Hrise].
    - assert (Hedge : 0 < edge) by lra. split.
      + apply Rmult_le_pos; [lra |]. left. now apply Rinv_0_lt_compat.
      + apply Rmult_le_reg_r with edge; [exact Hedge |].
        unfold Rdiv. rewrite Rmult_assoc, Rinv_l by lra. lra.
    - destruct (decide (phase > duty - edge)) as [Hfall | Hfall]; [| lra].
      assert (Hedge : 0 < edge) by lra. split.
      + apply Rmult_le_pos; [lra |]. left. now apply Rinv_0_lt_compat.
      + apply Rmult_le_reg_r with edge; [exact Hedge |].
        unfold Rdiv. rewrite Rmult_assoc, Rinv_l by lra. lra. }
  set (pv := if decide (phase < edge) then _ else _) in *. nra.
Qed.

(** X24: every point of a pulse cue of intensity in [[0, 1]], of sharpness
    at least 0 and of non-negative duration lies on or above the center
    line, within [intensity * 0.4 * height] of it: the smoothed edges never
    overshoot the plateau. *)
Theorem pulse_stays_in_band (rnd : Math.random_source) (cue : HapticCue)
  (width height zoomLevel : R) (i : nat) (pt : WaveformPoint) :
  type cue = pulse ->
  0 <= scalarIntensity cue <= 1 ->
  0 <= scalarSharpness cue ->
  0 <= duration cue ->
  0 <= height ->
  points (generateWaveformData rnd cue width height zoomLevel) !! i = Some pt ->
  height / 2 - scalarIntensity cue * (height * 0.4) <= y pt <= height / 2
  /\ height / 2 - 0.4 * height <= y pt.
Proof.
  intros Hty Hi Hs Hd Hh Hpt.
  pose proof (sampleCountOf_range (duration cue) zoomLevel) as Hn.
  assert (Hb : height / 2 - scalarIntensity cue * (height * 0.4) <= y pt
               <= height / 2).
  { destruct (static_cue_inv cue st_pulse Hty) as (b & p & ->).
    apply lookup_static_points in Hpt as [Hlt ->].
    apply pulsePoint_bounds; [lra | lra |].
    apply Rmult_le_pos; [apply progress_unit; [lia | exact Hlt] |].
    unfold totalPulses, pulsesPerSecond. nra. }
  split; [exact Hb | nra].
Qed.

Lemma pulse_stays_in_band_witness :
  let pt := pulsePoint cue_pulse 100 32
              (sampleCountOf (duration cue_pulse) 1) 1 in
  32 / 2 - scalarIntensity cue_pulse * (32 * 0.4) <= y pt <= 32 / 2
  /\ 32 / 2 - 0.4 * 32 <= y pt.
Proof.
  apply (pulse_stays_in_band draws_zero cue_pulse 100 32 1 1).
  - reflexivity.
  - unfold scalarIntensity, cue_pulse; simpl; lra.
  - unfold scalarSharpness, cue_pulse; simpl; lra.
  - unfold duration, cue_pulse; simpl; lra.
  - lra.
  - unfold generateWaveformData. simpl type. cbv iota zeta.
    apply lookup_sampleLoop. split; [| reflexivity].
    pose proof (sampleCountOf_range (duration cue_pulse) 1). lia.
Defined.

(** *** Explosion *)

Lemma explosionPoint_bounds (cue : HapticCue) (width height : R) (n : Z)
  (i : nat) :
  0 <= scalarIntensity cue -> 0 <= scalarSharpness cue <= 1 -> 0 <= height ->
  0 <= progress n i ->
  let amplitude := scalarIntensity cue * (height * 0.45) in
  height / 2 - amplitude <= y (explosionPoint cue width height n i)
  <= height / 2.
Proof.
  intros Hi Hs Hh Ht amplitude.
  assert (Hamp : 0 <= amplitude) by (unfold amplitude; nra).
  unfold explosionPoint. cbv zeta. simpl y. fold amplitude.
  set (t := progress n i) in *.
  set (bd := 0.08 + (1 - scalarSharpness cue) * 0.05).
  assert (Hbd : 0 < bd) by (unfold bd; lra).
  destruct (decide (t < bd)) as [Hblast | Hdecay].
  - assert (Hbase : 0 <= 1 - t / bd <= 1).
    { assert (0 <= t / bd <= 1); [| lra]. split.
      - apply Rmult_le_pos; [lra |]. left. now apply Rinv_0_lt_compat.
      - apply Rmult_le_reg_r with bd; [exact Hbd |].
        unfold Rdiv. rewrite Rmult_assoc, Rinv_l by lra. lra. }
    assert (Hp : 0 <= Math.pow (1 - t / bd) 0.3 <= 1)
      by (apply pow_unit; lra).
    pose proof (applySharpnessFilter_unit _ (scalarSharpness cue) Hp) as Hf.
    set (f := applySharpnessFilter _ _) in *. nra.
  - set (dt := t - bd).
    assert (Hdt : 0 <= dt) by (unfold dt; lra).
    assert (Hpd : 0 < Math.exp (- dt * (4 + scalarSharpness cue * 8)) <= 1)
      by (apply exp_unit; nra).
    assert (Hfade : 0 < Math.exp (- dt * 3) <= 1) by (apply exp_unit; nra).
    pose proof (SIN_bound (dt * (15 + scalarSharpness cue * 20) * 2 * PI))
      as Hsn.
    unfold Math.sin, Math.PI.
    set (pd := Math.exp (- dt * (4 + _))) in *.
    set (fade := Math.exp (- dt * 3)) in *.
    set (sn := sin _) in *.
    assert (Hafter : -0.3 <= sn * fade * 0.3 <= 0.3) by nra.
    set (a := sn * fade * 0.3) in *.
    assert (Htotal : 0 <= pd * (1 + a) <= 1.3) by nra.
    set (q := pd * (1 + a)) in *. nra.
Qed.

(** X25: every point of an explosion cue of intensity and sharpness in
    [[0, 1]] lies on or above the center line, within
    [intensity * 0.45 * height] of it. *)
Theorem explosion_stays_in_band (rnd : Math.random_source) (cue : HapticCue)
  (width height zoomLevel : R) (i : nat) (pt : WaveformPoint) :
  type cue = explosion ->
  0 <= scalarIntensity cue <= 1 ->
  0 <= scalarSharpness cue <= 1 ->
  0 <= height ->
  points (generateWaveformData rnd cue width height zoomLevel) !! i = Some pt ->
  height / 2 - scalarIntensity cue * (height * 0.45) <= y pt <= height / 2
  /\ height / 2 - 0.45 * height <= y pt.
Proof.
  intros Hty Hi Hs Hh Hpt.
  pose proof (sampleCountOf_range (duration cue) zoomLevel) as Hn.
  assert (Hb : height / 2 - scalarIntensity cue * (height * 0.45) <= y pt
               <= height / 2).
  { destruct (static_cue_inv cue st_explosion Hty) as (b & p & ->).
    apply lookup_static_points in Hpt as [Hlt ->].
    apply explosionPoint_bounds; [lra | lra | lra |].
    apply progress_unit; [lia | exact Hlt]. }
  split; [exact Hb | nra].
Qed.

Lemma explosion_stays_in_band_witness :
  let pt := explosionPoint cue_explosion 100 32
              (sampleCountOf (duration cue_explosion) 1) 2 in
  32 / 2 - scalarIntensity cue_explosion * (32 * 0.45) <= y pt <= 32 / 2
  /\ 32 / 2 - 0.45 * 32 <= y pt.
Proof.
  apply (explosion_stays_in_band draws_zero cue_explosion 100 32 1 2).
  - reflexivity.
  - unfold scalarIntensity, cue_explosion; simpl; lra.
  - unfold scalarSharpness, cue_explosion; simpl; lra.
  - lra.
  - unfold generateWaveformData. simpl type. cbv iota zeta.
    apply lookup_sampleLoop. split; [| reflexivity].
    pose proof (sampleCountOf_range (duration cue_explosion) 1). lia.
Defined.

(** *** Ramp *)

Lemma lookup_ramp_points (rnd : Math.random_source) (b : BaseCue)
  (ty : RampCueType) (p : RampCueProperties) (width height zoomLevel : R)
  (i : nat) (pt : WaveformPoint) :
  let cue := RampHapticCue b ty p in
  let n := sampleCountOf (duration cue) zoomLevel in
  points (generateWaveformData rnd cue width height zoomLevel) !! i = Some pt ->
  (i < Z.to_nat n)%nat /\ pt = rampPoint width height n ty p i.
Proof.
  intros cue n Hpt. unfold generateWaveformData in Hpt.
  destruct ty; simpl type in Hpt; cbv iota zeta in Hpt;
    apply lookup_sampleLoop in Hpt; exact Hpt.
Qed.

Lemma rampCurve_unit (t s : R) :
  0 <= t <= 1 -> 0 <= s <= 1 -> 0 <= rampCurve t s <= 1.
Proof.
  intros Ht Hs. unfold rampCurve.
  destruct (decide (s > 0.5)) as [Hsharp | Hsmooth]; cbv zeta.
  - apply pow_unit; lra.
  - assert (0 <= Math.pow (1 - t) (1 + (0.5 - s) * 2 * 0.5) <= 1)
      by (apply pow_unit; lra).
    lra.
Qed.

Lemma rampCurve_start (s : R) : s <= 1 -> rampCurve 0 s = 0.
Proof.
  intros Hs. unfold rampCurve.
  destruct (decide (s > 0.5)) as [Hsharp | Hsmooth]; cbv zeta.
  - apply pow_zero. lra.
  - replace (1 - 0) with 1 by lra. rewrite pow_one. lra.
Qed.

Lemma rampCurve_end (s : R) : rampCurve 1 s = 1.
Proof.
  unfold rampCurve.
  destruct (decide (s > 0.5)) as [Hsharp | Hsmooth]; cbv zeta.
  - apply pow_one.
  - replace (1 - 1) with 0 by lra. rewrite pow_zero by lra. lra.
Qed.

(** X26: a ramp whose start sharpness is at most 1 begins where its kind
    says: the first point of a ramp-up is on the center line, the first
    point of a ramp-down is at the full start amplitude,
    [height/2 - intensity_start * 0.45 * height].  At the last point the
    base curve has reached 1 for a ramp-up and 0 for a ramp-down. *)
Theorem ramp_endpoints (rnd : Math.random_source) (b : BaseCue)
  (ty : RampCueType) (p : RampCueProperties) (width height zoomLevel : R) :
  sharpness_start p <= 1 ->
  let pts :=
    points
      (generateWaveformData rnd (RampHapticCue b ty p) width height zoomLevel)
  in
  (exists pt,
     head pts = Some pt
     /\ y pt = match ty with
               | rt_ramp_up => height / 2
               | rt_ramp_down => height / 2 - intensity_start p * (height * 0.45)
               end)
  /\ (exists pt,
        last pts = Some pt
        /\ y pt = rampY height p 1
                    match ty with rt_ramp_up => 1 | rt_ramp_down => 0 end).
Proof.
  intros Hs pts.
  pose proof (sampleCountOf_range (duration (RampHapticCue b ty p)) zoomLevel)
    as Hn.
  set (n := sampleCountOf (duration (RampHapticCue b ty p)) zoomLevel) in *.
  assert (Hpts : pts = sampleLoop n (rampPoint width height n ty p)).
  { unfold pts, generateWaveformData. destruct ty; reflexivity. }
  split.
  - exists (rampPoint width height n ty p 0). split.
    + rewrite head_lookup, Hpts. apply lookup_sampleLoop.
      split; [lia | reflexivity].
    + rewrite rampPoint_y, progress_first. unfold rampY, rampValue. cbv zeta.
      assert (Hcs : currentSharpness p 0 = sharpness_start p)
        by (unfold currentSharpness; lra).
      assert (Hci : currentIntensity p 0 = intensity_start p)
        by (unfold currentIntensity; lra).
      rewrite Hcs, Hci, rampCurve_start by exact Hs.
      replace (0 * (25 + sharpness_start p * 15) * 2 * Math.PI) with 0 by lra.
      unfold Math.sin. rewrite sin_0. destruct ty; lra.
  - exists (rampPoint width height n ty p (Z.to_nat n - 1)). split.
    + rewrite last_lookup, Hpts, length_sampleLoop. apply lookup_sampleLoop.
      split; [lia | f_equal; lia].
    + rewrite rampPoint_y, progress_last by lia. unfold rampValue. cbv zeta.
      rewrite rampCurve_end. destruct ty; f_equal; lra.
Qed.

Lemma ramp_endpoints_witness :
  let pts := points (generateWaveformData draws_zero cue_ramp_up 100 32 1) in
  (exists pt, head pts = Some pt /\ y pt = 32 / 2)
  /\ (exists pt,
        last pts = Some pt
        /\ y pt = rampY 32 (mkRampProps 0.1 1.0 0.1 0.7) 1 1).
Proof.
  apply (ramp_endpoints draws_zero (mkBase "ru" 0 2.0 0) rt_ramp_up
           (mkRampProps 0.1 1.0 0.1 0.7) 100 32 1).
  simpl; lra.
Defined.

Lemma interpolation_unit (a b t : R) :
  0 <= a <= 1 -> 0 <= b <= 1 -> 0 <= t <= 1 -> 0 <= a + (b - a) * t <= 1.
Proof. intros Ha Hb Ht. split; nra. Qed.

(** X27: every point of a ramp whose four parameters are in [[0, 1]] lies
    between [height/2 - 1.02 * 0.45 * height] and
    [height/2 + 0.02 * 0.45 * height]: the texture term can carry the curve
    past the amplitude, and below the center line, by at most 2% of it. *)
Theorem ramp_stays_in_band (rnd : Math.random_source) (b : BaseCue)
  (ty : RampCueType) (p : RampCueProperties) (width height zoomLevel : R)
  (i : nat) (pt : WaveformPoint) :
  0 <= intensity_start p <= 1 -> 0 <= intensity_end p <= 1 ->
  0 <= sharpness_start p <= 1 -> 0 <= sharpness_end p <= 1 ->
  0 <= height ->
  points
    (generateWaveformData rnd (RampHapticCue b ty p) width height zoomLevel)
  !! i = Some pt ->
  height / 2 - 1.02 * (0.45 * height) <= y pt
  <= height / 2 + 0.02 * (0.45 * height).
Proof.
  intros His Hie Hss Hse Hh Hpt.
  pose proof (sampleCountOf_range (duration (RampHapticCue b ty p)) zoomLevel)
    as Hn.
  apply lookup_ramp_points in Hpt as [Hlt ->].
  assert (Ht : 0 <= progress
                      (sampleCountOf (duration (RampHapticCue b ty p))
                         zoomLevel) i <= 1)
    by (apply progress_unit; [lia | exact Hlt]).
  rewrite rampPoint_y.
  set (t := progress _ i) in *.
  pose proof (interpolation_unit _ _ t His Hie Ht) as Hci.
  pose proof (interpolation_unit _ _ t Hss Hse Ht) as Hcs.
  fold (currentIntensity p t) in Hci. fold (currentSharpness p t) in Hcs.
  assert (Hrv : 0 <= rampValue ty p t <= 1).
  { unfold rampValue. cbv zeta.
    pose proof (rampCurve_unit t (currentSharpness p t) Ht Hcs).
    destruct ty; lra. }
  unfold rampY. cbv zeta.
  pose proof (SIN_bound (t * (25 + currentSharpness p t * 15) * 2 * PI)) as Hsn.
  unfold Math.sin, Math.PI.
  set (sn := sin _) in *. set (rv := rampValue ty p t) in *.
  set (ci := currentIntensity p t) in *.
  assert (Hamp : 0 <= ci * (height * 0.45) <= 0.45 * height) by nra.
  set (amp := ci * (height * 0.45)) in *.
  assert (Hmicro : -0.02 <= sn * 0.02 * ci <= 0.02) by nra.
  set (micro := sn * 0.02 * ci) in *.
  assert (Hbase : 0 <= rv * amp <= amp) by nra.
  assert (Htex : - (0.02 * amp) <= micro * amp <= 0.02 * amp) by nra.
  lra.
Qed.

Lemma ramp_stays_in_band_witness :
  let pt := rampPoint 100 32 33 rt_ramp_down ramp_sharp 8 in
  32 / 2 - 1.02 * (0.45 * 32) <= y pt <= 32 / 2 + 0.02 * (0.45 * 32).
Proof.
  apply (ramp_stays_in_band draws_zero (mkBase "r" 0 0.55 0) rt_ramp_down
           ramp_sharp 100 32 1 8);
    try (unfold ramp_sharp; simpl; lra).
  exact lookup_ramp_sharp_8.
Defined.

(** *** Rumble *)

(** X28: two syntheses of the same rumble cue, made with any draws of
    [[0, 1)], give points with the same [x], and their [y] differ by less
    than [0.05 * intensity * amplitude], with [amplitude = intensity * 0.4 *
    height]: the jitter moves a sample by at most half of that. *)
Theorem rumble_jitter_bounded (rnd1 rnd2 : Math.random_source)
  (cue : HapticCue) (width height zoomLevel : R) (i : nat)
  (p1 p2 : WaveformPoint) :
  type cue = rumble_low \/ type cue = rumble_high ->
  (forall k, 0 <= rnd1 k < 1) ->
  (forall k, 0 <= rnd2 k < 1) ->
  0 <= scalarIntensity cue ->
  0 <= height ->
  points (generateWaveformData rnd1 cue width height zoomLevel) !! i = Some p1 ->
  points (generateWaveformData rnd2 cue width height zoomLevel) !! i = Some p2 ->
  x p1 = x p2
  /\ Rabs (y p1 - y p2)
     <= 0.05 * scalarIntensity cue * (scalarIntensity cue * (height * 0.4)).
Proof.
  intros Hty H1 H2 Hi Hh Hp1 Hp2.
  assert (Hd : exists f n,
             x p1 = x p2
             /\ y p2 - y p1
                = (rnd1 i - rnd2 i) * 0.05 * scalarIntensity cue
                  * (scalarIntensity cue * (height * 0.4))
             /\ p1 = rumblePoint cue width height n rnd1 f i).
  { destruct Hty as [Hty | Hty];
      [destruct (static_cue_inv cue st_rumble_low Hty) as (b & p & ->)
      | destruct (static_cue_inv cue st_rumble_high Hty) as (b & p & ->)];
      apply lookup_static_points in Hp1 as [_ ->];
      apply lookup_static_points in Hp2 as [_ ->];
      do 2 eexists; (split; [reflexivity |]);
      (split; [apply rumblePoint_y_diff | reflexivity]). }
  destruct Hd as (f & n & Hx & Hy & _). split; [exact Hx |].
  specialize (H1 i). specialize (H2 i).
  set (amp := scalarIntensity cue * (height * 0.4)) in *.
  assert (Hamp : 0 <= scalarIntensity cue * amp) by (unfold amp; nra).
  set (q := scalarIntensity cue * amp) in *.
  replace (y p1 - y p2) with (- ((rnd1 i - rnd2 i) * 0.05 * q))
    by (unfold q; lra).
  replace (0.05 * scalarIntensity cue * amp) with (0.05 * q)
    by (unfold q; lra).
  apply Rabs_le. split; nra.
Qed.

Lemma rumble_jitter_bounded_witness :
  let n := sampleCountOf (duration cue_rumble) 1 in
  let p1 := rumblePoint cue_rumble 100 32 n draws_zero 2.0 0 in
  let p2 := rumblePoint cue_rumble 100 32 n draws_half 2.0 0 in
  x p1 = x p2
  /\ Rabs (y p1 - y p2)
     <= 0.05 * scalarIntensity cue_rumble
        * (scalarIntensity cue_rumble * (32 * 0.4)).
Proof.
  apply (rumble_jitter_bounded draws_zero draws_half cue_rumble 100 32 1 0).
  - left; reflexivity.
  - intros k. unfold draws_zero. lra.
  - intros k. unfold draws_half. lra.
  - unfold scalarIntensity, cue_rumble; simpl; lra.
  - lra.
  - unfold generateWaveformData. simpl type. cbv iota zeta.
    apply lookup_sampleLoop. split; [| reflexivity].
    pose proof (sampleCountOf_range (duration cue_rumble) 1). lia.
  - unfold generateWaveformData. simpl type. cbv iota zeta.
    apply lookup_sampleLoop. split; [| reflexivity].
    pose proof (sampleCountOf_range (duration cue_rumble) 1). lia.
Defined.

(** ** Zooming out and the playhead *)

(** X29: after a zoom-out a playhead that is in the timeline is in the
    window: either the whole timeline is visible from 0, or the window is
    placed around the playhead and clamped to the timeline. *)
Theorem zoomOut_shows_playhead (v : TimelineView) (currentTime : R) :
  0 <= totalDuration v ->
  0 <= currentTime <= totalDuration v ->
  let v' := handleZoomOut currentTime v in
  viewStartTime v' <= currentTime <= viewStartTime v' + visibleDuration v'.
Proof.
  intros Hd Hc v'.
  assert (Hz : 0 < Math.max (zoomLevel v / 2) 0.25).
  { pose proof (max_upper (zoomLevel v / 2) 0.25). lra. }
  assert (HV : 0 <= totalDuration v / Math.max (zoomLevel v / 2) 0.25).
  { apply Rmult_le_pos; [exact Hd |]. left. now apply Rinv_0_lt_compat. }
  unfold v', handleZoomOut. cbv zeta.
  set (V := totalDuration v / Math.max (zoomLevel v / 2) 0.25) in *.
  destruct (decide (V >= totalDuration v)) as [Hall | Hpart];
    unfold visibleDuration; simpl; fold V.
  - lra.
  - minmax; lra.
Qed.

Lemma zoomOut_shows_playhead_witness :
  let v' := handleZoomOut 50 view_zoomed in
  viewStartTime v' <= 50 <= viewStartTime v' + visibleDuration v'.
Proof.
  apply (zoomOut_shows_playhead view_zoomed 50);
    unfold view_zoomed; simpl; lra.
Defined.

(** ** The guards of a resize *)

(** X30: every patch a resize sends is within its guard, with [dt] the
    delta as the handler computes it ([pixelToTime] of the pixel delta, pan
    offset included).  A resize-left patch has [startTime' = max(0,
    startTime + dt) >= 0] and [duration' = startDuration - (startTime' -
    startTime) > 0.1]; a resize-right patch has [duration' = max(0.1,
    startDuration + dt) >= 0.1] and [startTime + duration' <=
    totalDuration].  So no resize produces a duration of 0.1 or less on the
    left, or an end past the timeline on the right. *)
Theorem resize_patch_guards (v : TimelineView) (cues : list HapticCue)
  (dragState : DragState) (clientX : R) (cueId : string) (u : CueUpdates) :
  handleMouseMove v cues dragState clientX = Some (cueId, u) ->
  let dt := pixelToTime v (clientX - drag_startX dragState) in
  (drag_type dragState = resize_left ->
   exists s d,
     u = set_duration d (set_startTime s noUpdates)
     /\ s = Math.max 0 (drag_startTime dragState + dt)
     /\ d = drag_startDuration dragState - (s - drag_startTime dragState)
     /\ 0 <= s
     /\ d > 0.1)
  /\ (drag_type dragState = resize_right ->
      exists d,
        u = set_duration d noUpdates
        /\ d = Math.max 0.1 (drag_startDuration dragState + dt)
        /\ 0.1 <= d
        /\ drag_startTime dragState + d <= totalDuration v).
Proof.
  intros Hcall dt.
  destruct (List.find (fun c => bool_decide (id c = drag_cueId dragState)) cues)
    as [cue|] eqn:Hfind.
  - split; intros Hty.
    + rewrite (handleMouseMove_resize_left v cues dragState clientX cue Hfind Hty)
        in Hcall.
      cbv zeta in Hcall. fold dt in Hcall.
      destruct (decide (drag_startDuration dragState
                        - (Math.max 0 (drag_startTime dragState + dt)
                           - drag_startTime dragState) > 0.1))
        as [Hgt | _]; [| discriminate].
      injection Hcall as _ <-. do 2 eexists.
      split; [reflexivity |]. split; [reflexivity |]. split; [reflexivity |].
      split; [apply max_lower | exact Hgt].
    + rewrite (handleMouseMove_resize_right v cues dragState clientX cue Hfind Hty)
        in Hcall.
      cbv zeta in Hcall. fold dt in Hcall.
      destruct (decide (drag_startTime dragState
                        + Math.max 0.1 (drag_startDuration dragState + dt)
                        <= totalDuration v))
        as [Hle | _]; [| discriminate].
      injection Hcall as _ <-. eexists.
      split; [reflexivity |]. split; [reflexivity |].
      split; [apply max_lower | exact Hle].
  - rewrite (handleMouseMove_not_found _ _ _ _ Hfind) in Hcall. discriminate.
Qed.

Lemma resize_patch_guards_witness :
  let dragState := mkDrag resize_left "a" 100 5 1 in
  let dt := pixelToTime view_fit (103 - drag_startX dragState) in
  (drag_type dragState = resize_left ->
   exists s d,
     set_duration 0.7 (set_startTime 5.3 noUpdates)
     = set_duration d (set_startTime s noUpdates)
     /\ s = Math.max 0 (drag_startTime dragState + dt)
     /\ d = drag_startDuration dragState - (s - drag_startTime dragState)
     /\ 0 <= s
     /\ d > 0.1)
  /\ (drag_type dragState = resize_right ->
      exists d,
        set_duration 0.7 (set_startTime 5.3 noUpdates)
        = set_duration d noUpdates
        /\ d = Math.max 0.1 (drag_startDuration dragState + dt)
        /\ 0.1 <= d
        /\ drag_startTime dragState + d <= totalDuration view_fit).
Proof.
  apply (resize_patch_guards view_fit [cue_a]
           (mkDrag resize_left "a" 100 5 1) 103 "a").
  exact handleMouseMove_resize_left_eval.
Defined.
